(** * preact-typed-custom-element: the custom-element bridge of [src/index.ts]

    A shallow embedding of [register], the generated [PreactElement] class
    (constructor, property accessors, [connectedCallback],
    [attributeChangedCallback], [disconnectedCallback]), [toCamelCase] and the
    light-DOM projector [toVdom], followed by the properties the
    specification states about them.

    The rendering engine (preact's [h], [cloneElement], [render], [hydrate])
    and the host document are collaborators outside the repository.  They are
    modelled at the interface the specification gives them: [h] builds a tree
    node out of a type reference, a prop mapping and children; [cloneElement]
    returns the node with prop overrides merged in shallowly; [render] and
    [hydrate] are recorded as calls, in order, with the tree and the mount
    point they receive.  The engine keeps three prop names for itself: [key]
    and [ref], which it takes out of a prop mapping, and [children], under
    which a node holds its children.  A tree node is modelled for all other
    names, and what is stated about the props of a node is stated for those
    ([engine_reserved] below).

    The host delivers lifecycle notifications as events and answers the
    context-request signal with a value.  It lower-cases attribute names,
    runs [attributeChangedCallback] from inside [setAttribute] when the name
    is an observed one, refuses a definition under an invalid or taken name,
    and lets the engine rewrite the children of an element it renders
    into. *)

From Stdlib Require Import String Ascii List Bool Arith Lia DecimalString.
Import ListNotations.
Local Open Scope string_scope.
Local Open Scope list_scope.
Set Warnings "-register-all".

(** ** JavaScript objects used as string-keyed maps

    A plain object keeps its string keys in insertion order; writing an
    existing key replaces the value in place. *)

Module Obj.

Definition t (A : Type) : Type := list (string * A).

Fixpoint get {A} (o : t A) (k : string) : option A :=
  match o with
  | [] => None
  | (k', v) :: o' => if String.eqb k' k then Some v else get o' k
  end.

Fixpoint set {A} (o : t A) (k : string) (v : A) : t A :=
  match o with
  | [] => [(k, v)]
  | (k', v') :: o' =>
      if String.eqb k' k then (k', v) :: o' else (k', v') :: set o' k v
  end.

Definition has {A} (o : t A) (k : string) : bool :=
  match get o k with Some _ => true | None => false end.

(** [Object.assign({}, o, delta)] / spread followed by overrides. *)
Definition assign {A} (o delta : t A) : t A :=
  fold_left (fun acc kv => set acc (fst kv) (snd kv)) delta o.

(** [const { k, ...rest } = o]: [rest] is [o] without the key [k]. *)
Fixpoint remove {A} (o : t A) (k : string) : t A :=
  match o with
  | [] => []
  | (k', v) :: o' =>
      if String.eqb k' k then remove o' k else (k', v) :: remove o' k
  end.

(** An object holds each key once. *)
Definition wf {A} (o : t A) : Prop := NoDup (map fst o).

End Obj.

(** ** Arrays written by index

    [children[i] = vnode] on an array shorter than [i] extends it and leaves
    holes; a hole reads as [undefined]. *)

Module Arr.

Definition t (A : Type) : Type := list (option A).

Fixpoint put {A} (a : t A) (i : nat) (v : A) : t A :=
  match i, a with
  | O, [] => [Some v]
  | O, _ :: rest => Some v :: rest
  | S i', [] => None :: put [] i' v
  | S i', x :: rest => x :: put rest i' v
  end.

Definition at_ {A} (a : t A) (i : nat) : option A :=
  match nth_error a i with
  | Some (Some v) => Some v
  | _ => None
  end.

End Arr.

(** ** Characters of the regular expression [/-(\w)/g] *)

Definition is_hyphen (c : ascii) : bool := Ascii.eqb c "-"%char.

Definition in_range (lo hi : nat) (c : ascii) : bool :=
  Nat.leb lo (nat_of_ascii c) && Nat.leb (nat_of_ascii c) hi.

Definition is_lower (c : ascii) : bool := in_range 97 122 c.
Definition is_upper (c : ascii) : bool := in_range 65 90 c.
Definition is_digit (c : ascii) : bool := in_range 48 57 c.

(** [\w] without the unicode flag: [A-Za-z0-9_]. *)
Definition is_word (c : ascii) : bool :=
  is_lower c || is_upper c || is_digit c || Ascii.eqb c "_"%char.

Definition char_toUpperCase (c : ascii) : ascii :=
  if is_lower c then ascii_of_nat (nat_of_ascii c - 32) else c.

Definition char_toLowerCase (c : ascii) : ascii :=
  if is_upper c then ascii_of_nat (nat_of_ascii c + 32) else c.

(** [str.replace(/-(\w)/g, (_, c) => (c ? c.toUpperCase() : ''))]: scanning
    left to right, a hyphen followed by a word character is replaced by that
    character in upper case and scanning resumes after the pair.  The captured
    group always holds one character, so the [''] branch is never taken. *)
Fixpoint toCamelCase (str : string) : string :=
  match str with
  | EmptyString => EmptyString
  | String c rest =>
      if is_hyphen c then
        match rest with
        | String d rest' =>
            if is_word d
            then String (char_toUpperCase d) (toCamelCase rest')
            else String c (toCamelCase rest)
        | EmptyString => String c EmptyString
        end
      else String c (toCamelCase rest)
  end.

(** Whether a hyphen occurs in the string. *)
Fixpoint has_hyphen (s : string) : bool :=
  match s with
  | EmptyString => false
  | String c rest => is_hyphen c || has_hyphen rest
  end.

(** Strings made of the letters [a-z] only. *)
Fixpoint all_lower (s : string) : bool :=
  match s with
  | EmptyString => true
  | String c rest => is_lower c && all_lower rest
  end.

(** [nodeName.toLowerCase()] on strings of ASCII characters ([is_ascii]
    below).  Letters outside ASCII, which the JavaScript method lowers too,
    are left as they are here. *)
Fixpoint toLowerCase (str : string) : string :=
  match str with
  | EmptyString => EmptyString
  | String c rest => String (char_toLowerCase c) (toLowerCase rest)
  end.

(** The DOM's "ASCII lowercase", which [setAttribute], [getAttribute] and
    [hasAttribute] apply to the attribute name on an HTML element. *)
Fixpoint ascii_lowercase (str : string) : string :=
  match str with
  | EmptyString => EmptyString
  | String c rest => String (char_toLowerCase c) (ascii_lowercase rest)
  end.

(** Strings of ASCII characters only; on these [toLowerCase] above is the
    JavaScript method exactly. *)
Fixpoint is_ascii (str : string) : bool :=
  match str with
  | EmptyString => true
  | String c rest => Nat.ltb (nat_of_ascii c) 128 && is_ascii rest
  end.

(** ** DOM nodes

    [nodeType] is the host's numeric node kind (1 is an element); [data] is
    the character data of a character-data node; [attributes] is the
    attribute list in the order the host iterates it. *)

Inductive Node : Type :=
  mkNode (nodeType : nat) (nodeName : string) (data : string)
         (attributes : Obj.t string) (childNodes : list Node).

Definition nodeType (n : Node) : nat :=
  match n with mkNode ty _ _ _ _ => ty end.
Definition nodeName (n : Node) : string :=
  match n with mkNode _ nn _ _ _ => nn end.
Definition data (n : Node) : string :=
  match n with mkNode _ _ d _ _ => d end.
Definition attributes (n : Node) : Obj.t string :=
  match n with mkNode _ _ _ a _ => a end.
Definition childNodes (n : Node) : list Node :=
  match n with mkNode _ _ _ _ cn => cn end.

Definition isComment (node : Node) : bool := Nat.eqb (nodeType node) 3.
Definition isElement (node : Node) : bool := Nat.eqb (nodeType node) 1.

(** [node.slot]: on an element it reflects the [slot] attribute (the empty
    string when there is none); other nodes have no such property and the
    read gives [undefined], here [None]. *)
Definition slot (node : Node) : option string :=
  if isElement node then
    match Obj.get (attributes node) "slot" with
    | Some s => Some s
    | None => Some ""
    end
  else None.

(** Truthiness of a string-or-undefined. *)
Definition truthy_name (name : option string) : bool :=
  match name with
  | Some s => negb (String.eqb s "")
  | None => false
  end.

Definition name_text (name : option string) : string :=
  match name with Some s => s | None => "" end.

(** ** Component definitions

    What [register] may read from the component it is given.  Only the keys
    of [propTypes] can matter, so its values are not represented. *)

Module Component.

Record t : Type := mk {
  observedAttributes : option (list string);
  propTypes : option (Obj.t unit);
  tagName : option string;
  displayName : option string;
  name : string
}.

End Component.

(** The type reference of a tree node: a tag name, one of the two
    micro-components of the bridge, or the registered component. *)
Inductive vtype : Type :=
  | TTag (tag : string)
  | TSlot
  | TContextProvider
  | TComponent (c : Component.t).

(** [typeof] results of the values that are not null, undefined, boolean,
    number or string. *)
Inductive other_kind : Type := KObject | KFunction | KSymbol | KBigInt.

(** ** The registered element class *)

Inductive ShadowMode : Type := Open | Closed.

(** [Options = { shadow: false | 'open' | 'closed' }]; [None] is [false]. *)
Record Options : Type := { shadow : option ShadowMode }.

(** [_root]: the element itself or the shadow root attached to it. *)
Inductive Root : Type :=
  | RootSelf
  | RootShadow (mode : ShadowMode).

(** What [register] closes over, and the static [observedAttributes] field
    of the class it builds. *)
Record PreactElementClass : Type := {
  static_observedAttributes : option (list string);
  class_Component : Component.t;
  class_propNames : option (list string);
  class_options : option Options
}.

(** [a ?? b] on optional strings. *)
Definition nullish_or (a : option string) (b : option string) : option string :=
  match a with Some _ => a | None => b end.

(** [register]: builds the class ([static observedAttributes = propNames])
    and hands it to [customElements.define] under the resolved tag name.  The
    result is that call: the name and the class. *)
Definition register (Component : Component.t) (tagName : option string)
    (propNames : option (list string)) (options : option Options)
  : string * PreactElementClass :=
  (match nullish_or tagName
           (nullish_or (Component.tagName Component)
                       (Component.displayName Component)) with
   | Some n => n
   | None => Component.name Component
   end,
   {| static_observedAttributes := propNames;
      class_Component := Component;
      class_propNames := propNames;
      class_options := options |}).

Inductive JsError : Type := TypeError | SyntaxError | NotSupportedError.

Inductive completion (A : Type) : Type :=
  | Normal (a : A)
  | Throw (e : JsError).
Arguments Normal {A} a.
Arguments Throw {A} e.

(** [customElements.define(name, cls)], the host's side of [register]: the
    call is refused with a [SyntaxError] when the name is not a valid
    custom-element name and with a [NotSupportedError] when the name is
    taken; otherwise the name is defined.  Which names are valid is the
    host's rule, given as [valid_name]; [defined] are the names taken. *)
Definition customElements_define (valid_name : string -> bool)
    (defined : list string) (call : string * PreactElementClass)
  : completion (list string) :=
  if negb (valid_name (fst call)) then Throw SyntaxError
  else if existsb (String.eqb (fst call)) defined then Throw NotSupportedError
  else Normal (fst call :: defined).

(** [propNames || PreactElement.observedAttributes]: an array, even an empty
    one, is truthy. *)
Definition propsToDefine (cls : PreactElementClass) : option (list string) :=
  match class_propNames cls with
  | Some l => Some l
  | None => static_observedAttributes cls
  end.

Section Bridge.

(** JavaScript numbers are only ever tested with [typeof] and coerced with
    [String] here, so they stay abstract together with their rendering. *)
Variable number : Type.
Variable Number_toString : number -> string.

(** ** Values and tree nodes *)

Inductive value : Type :=
  | VUndefined
  | VNull
  | VBool (b : bool)
  | VNumber (n : number)
  | VString (s : string)
  | VOther (kind : other_kind) (ref : nat)
  | VArray (items : list (option value))
  | VTree (v : vnode)
with vnode : Type :=
  | mkVNode (type : vtype) (props : list (string * value)) (children : value).

Definition vnode_type (v : vnode) : vtype :=
  match v with mkVNode ty _ _ => ty end.
Definition vnode_props (v : vnode) : Obj.t value :=
  match v with mkVNode _ p _ => p end.
Definition vnode_children (v : vnode) : value :=
  match v with mkVNode _ _ c => c end.

(** [h(type, props, children)]; a [null] prop mapping is an empty one.  The
    children are kept apart from the props here, and the props are kept as
    given: right for every prop name but [key], [ref] and [children]. *)
Definition h (type : vtype) (props : option (Obj.t value)) (children : value)
  : vnode :=
  mkVNode type (match props with Some p => p | None => [] end) children.

(** [cloneElement(vnode, props)]: same type and children, the given props
    written over the existing ones key by key; again for prop names other
    than [key], [ref] and [children]. *)
Definition cloneElement (v : vnode) (delta : Obj.t value) : vnode :=
  mkVNode (vnode_type v) (Obj.assign (vnode_props v) delta) (vnode_children v).

(** [vnode.props[name]]; a missing key reads as [undefined]. *)
Definition read (o : Obj.t value) (k : string) : value :=
  match Obj.get o k with Some v => v | None => VUndefined end.

Definition typeof (v : value) : string :=
  match v with
  | VUndefined => "undefined"
  | VNull => "object"
  | VBool _ => "boolean"
  | VNumber _ => "number"
  | VString _ => "string"
  | VOther KObject _ => "object"
  | VOther KFunction _ => "function"
  | VOther KSymbol _ => "symbol"
  | VOther KBigInt _ => "bigint"
  | VArray _ => "object"
  | VTree _ => "object"
  end.

(** [v == null] *)
Definition is_nullish (v : value) : bool :=
  match v with
  | VUndefined | VNull => true
  | _ => false
  end.

(** [String(v)].  The bridge coerces only null, undefined, booleans, numbers
    and strings; the last case is never evaluated by it. *)
Definition String_ (v : value) : string :=
  match v with
  | VUndefined => "undefined"
  | VNull => "null"
  | VBool true => "true"
  | VBool false => "false"
  | VNumber n => Number_toString n
  | VString s => s
  | _ => "[object Object]"
  end.

(** ** The light-DOM projector *)

(** Truthiness of the [nodeName] argument of [toVdom]. *)
Definition truthy_type (nodeName : option vtype) : bool :=
  match nodeName with
  | None => false
  | Some (TTag s) => negb (String.eqb s "")
  | Some _ => true
  end.

(** [nodeName || fallback] *)
Definition type_or (nodeName : option vtype) (fallback : vtype) : vtype :=
  match nodeName with
  | Some t => if truthy_type nodeName then t else fallback
  | None => fallback
  end.

(** The loop over [element.attributes]. *)
Definition attribute_loop (a : Obj.t string) (props : Obj.t value)
  : Obj.t value :=
  fold_left
    (fun props nv =>
       if negb (String.eqb (fst nv) "slot") then
         Obj.set (Obj.set props (fst nv) (VString (snd nv)))
                 (toCamelCase (fst nv)) (VString (snd nv))
       else props)
    a props.

(** The loop [for (let i = cn.length; i--;)]: [i] is tested, decremented,
    and the body runs at the decremented index, from the last child down to
    the first.  [cn] holds, for each child, its projection [toVdom(cn[i],
    null)] and its [slot] property. *)
Fixpoint child_loop (cn : list (value * option string)) (i : nat)
    (props : Obj.t value) (children : Arr.t value)
  : Obj.t value * Arr.t value :=
  match i with
  | O => (props, children)
  | S i' =>
      match nth_error cn i' with
      | Some (vnode, name) =>
          if truthy_name name then
            child_loop cn i'
              (Obj.set props (name_text name)
                 (VTree (h TSlot (Some [("name", VString (name_text name))])
                           vnode)))
              children
          else child_loop cn i' props (Arr.put children i' vnode)
      | None => child_loop cn i' props children
      end
  end.

(** [element.nodeName], named apart from the parameter [nodeName] of
    [toVdom]. *)
Definition element_nodeName (element : Node) : string := nodeName element.

Fixpoint toVdom (element : Node) (nodeName : option vtype) : value :=
  if isComment element then VString (data element)
  else if negb (isElement element) then VNull
  else
    let props := attribute_loop (attributes element) [] in
    let cn := map (fun c => (toVdom c None, slot c)) (childNodes element) in
    let (props, children) := child_loop cn (length cn) props [] in
    let wrappedChildren :=
      if truthy_type nodeName
      then VTree (h TSlot None (VArray children))
      else VArray children in
    VTree (h (type_or nodeName (TTag (toLowerCase (element_nodeName element))))
             (Some props) wrappedChildren).

(** ** Instances of the registered class *)

(** Calls into the rendering engine, in the order they are made. *)
Inductive EngineCall : Type :=
  | Render (tree : option vnode) (root : Root)
  | Hydrate (tree : vnode) (root : Root).

(** What the engine leaves as the children of the element after a call
    that mounts into the element itself: a function of the calls made
    before, of the call and of the children before it.  The engine and the
    component decide it; the bridge reads the result at the next
    connection. *)
Definition Rendered : Type :=
  list EngineCall -> EngineCall -> list Node -> list Node.

(** An instance: the host element's own node name, attributes and children,
    the fields the class declares, the names the constructor defined
    accessors for, the engine calls made so far, and what the engine does
    to the element's children when it renders into the element. *)
Record PreactElement : Type := mkElement {
  el_nodeName : string;
  el_attributes : Obj.t string;
  el_childNodes : list Node;
  _vdomComponent : Component.t;
  _root : Root;
  _vdom : option vnode;
  _props : option (Obj.t value);
  accessors : list string;
  engine : list EngineCall;
  rendered : Rendered
}.

(** The instance seen as the DOM node it is. *)
Definition this_node (this : PreactElement) : Node :=
  mkNode 1 (el_nodeName this) "" (el_attributes this) (el_childNodes this).

(** The constructor, run by the host on an element with the given node name,
    attributes and children.  Iterating [propsToDefine] when it is
    [undefined] raises a [TypeError]. *)
Definition constructor (cls : PreactElementClass) (nn : string)
    (attrs : Obj.t string) (cn : list Node) (rendered : Rendered)
  : completion PreactElement :=
  let root :=
    match class_options cls with
    | Some {| shadow := Some mode |} => RootShadow mode
    | _ => RootSelf
    end in
  match propsToDefine cls with
  | Some names =>
      Normal {| el_nodeName := nn; el_attributes := attrs;
                el_childNodes := cn;
                _vdomComponent := class_Component cls;
                _root := root; _vdom := None; _props := None;
                accessors := names; engine := []; rendered := rendered |}
  | None => Throw TypeError
  end.

(** The stored tree is replaced and the engine is called.  When the mount
    point is the element itself the engine rewrites the element's
    children; a shadow root leaves them alone. *)
Definition with_vdom (this : PreactElement) (vd : option vnode)
    (call : EngineCall) : PreactElement :=
  mkElement (el_nodeName this) (el_attributes this)
            (match _root this with
             | RootSelf =>
                 rendered this (engine this) call (el_childNodes this)
             | RootShadow _ => el_childNodes this
             end)
            (_vdomComponent this) (_root this) vd (_props this)
            (accessors this) (engine this ++ [call]) (rendered this).

Definition with_props (this : PreactElement) (p : Obj.t value)
  : PreactElement :=
  mkElement (el_nodeName this) (el_attributes this) (el_childNodes this)
            (_vdomComponent this) (_root this) (_vdom this) (Some p)
            (accessors this) (engine this) (rendered this).

Definition with_attributes (this : PreactElement) (a : Obj.t string)
  : PreactElement :=
  mkElement (el_nodeName this) a (el_childNodes this) (_vdomComponent this)
            (_root this) (_vdom this) (_props this) (accessors this)
            (engine this) (rendered this).

Definition getAttribute (this : PreactElement) (name : string)
  : option string :=
  Obj.get (el_attributes this) (ascii_lowercase name).

Definition hasAttribute (this : PreactElement) (name : string) : bool :=
  Obj.has (el_attributes this) (ascii_lowercase name).

(** [{ ...this._props }] *)
Definition spread (p : option (Obj.t value)) : Obj.t value :=
  match p with Some o => o | None => [] end.

(** [connectedCallback]; [context] is what the dispatched [_preact] signal
    brought back in its payload ([undefined] when no ancestor answered). *)
Definition connectedCallback (context : value) (this : PreactElement)
  : PreactElement :=
  let vd :=
    h TContextProvider
      (Some (Obj.set (spread (_props this)) "context" context))
      (toVdom (this_node this) (Some (TComponent (_vdomComponent this)))) in
  with_vdom this (Some vd)
    (if hasAttribute this "hydrate"
     then Hydrate vd (_root this)
     else Render (Some vd) (_root this)).

(** The prop delta [attributeChangedCallback] builds. *)
Definition prop_delta (name : string) (newValue : value) : Obj.t value :=
  let newValue := if is_nullish newValue then VUndefined else newValue in
  Obj.set (Obj.set [] name newValue) (toCamelCase name) newValue.

Definition attributeChangedCallback (name : string)
    (oldValue newValue : value) (this : PreactElement) : PreactElement :=
  match _vdom this with
  | None => this
  | Some vd =>
      let vd' := cloneElement vd (prop_delta name newValue) in
      with_vdom this (Some vd') (Render (Some vd') (_root this))
  end.

Definition disconnectedCallback (this : PreactElement) : PreactElement :=
  with_vdom this None (Render None (_root this)).

(** The names that have an accessor pair.  They are also the names the
    host observes: [static observedAttributes] is [propNames], the list
    the constructor defined the accessors from. *)
Definition declared (name : string) (this : PreactElement) : bool :=
  existsb (String.eqb name) (accessors this).

(** An attribute value as the host passes it to [attributeChangedCallback]:
    [null] for an attribute that is not there. *)
Definition attribute_value (a : option string) : value :=
  match a with Some s => VString s | None => VNull end.

(** [this.setAttribute(name, value)].  The host lower-cases the name and
    stores the value; when the name is observed it runs
    [attributeChangedCallback] with the old and the new value before
    [setAttribute] returns. *)
Definition setAttribute (this : PreactElement) (name value : string)
  : PreactElement :=
  let name := ascii_lowercase name in
  let oldValue := attribute_value (Obj.get (el_attributes this) name) in
  let this1 :=
    with_attributes this (Obj.set (el_attributes this) name value) in
  if declared name this
  then attributeChangedCallback name oldValue (VString value) this1
  else this1.

(** The accessor pair defined for [name]. *)
Definition getter (name : string) (this : PreactElement) : value :=
  match _vdom this with
  | Some vd => read (vnode_props vd) name
  | None =>
      match _props this with
      | Some p => read p name
      | None => VUndefined
      end
  end.

(** [v == null || ['string', 'boolean', 'number'].includes(typeof v)] *)
Definition reflected (v : value) : bool :=
  is_nullish v
  || existsb (String.eqb (typeof v)) ["string"; "boolean"; "number"].

Definition setter (name : string) (v : value) (this : PreactElement)
  : PreactElement :=
  let this1 :=
    match _vdom this with
    | Some _ => attributeChangedCallback name VNull v this
    | None => with_props this (Obj.set (spread (_props this)) name v)
    end in
  if reflected v then setAttribute this1 name (String_ v) else this1.

(** Reading and writing the property [name] of an instance from outside: the
    accessor pair when the constructor defined one for [name]; otherwise an
    ordinary property of the element, which is no part of this state. *)
Definition property_get (name : string) (this : PreactElement)
  : option value :=
  if declared name this then Some (getter name this) else None.

Definition property_set (name : string) (v : value) (this : PreactElement)
  : PreactElement :=
  if declared name this then setter name v this else this.

(** ** Histories of an instance *)

Inductive event : Type :=
  | Connect (context : value)
  | AttributeChanged (name : string) (oldValue newValue : value)
  | Disconnect
  | PropertySet (name : string) (v : value).

Definition step (this : PreactElement) (ev : event) : PreactElement :=
  match ev with
  | Connect context => connectedCallback context this
  | AttributeChanged name oldValue newValue =>
      attributeChangedCallback name oldValue newValue this
  | Disconnect => disconnectedCallback this
  | PropertySet name v => property_set name v this
  end.

Definition run (this : PreactElement) (evs : list event) : PreactElement :=
  fold_left step evs this.

(** Every property write of the history [evs], started in [this], is made
    while a render tree is stored. *)
Fixpoint writes_while_rendered (this : PreactElement) (evs : list event)
  : bool :=
  match evs with
  | [] => true
  | ev :: evs' =>
      match ev with
      | PropertySet _ _ =>
          match _vdom this with Some _ => true | None => false end
      | _ => true
      end
      && writes_while_rendered (step this ev) evs'
  end.

(** The same element, with the same light DOM and the same pending
    property values, as it is before it is connected for the first time. *)
Definition first_time (this : PreactElement) : PreactElement :=
  mkElement (el_nodeName this) (el_attributes this) (el_childNodes this)
            (_vdomComponent this) (_root this) None (_props this)
            (accessors this) [] (rendered this).

(** ** Reading a projected tree *)

Definition tree_props (v : value) : Obj.t value :=
  match v with VTree n => vnode_props n | _ => [] end.

Definition tree_children (v : value) : value :=
  match v with VTree n => vnode_children n | _ => VUndefined end.

(** A projected child wrapped in a Slot Forwarder keyed by [name]. *)
Definition slot_forwarder (name : string) (vnode : value) : value :=
  VTree (h TSlot (Some [("name", VString name)]) vnode).

(** The values the bridge mirrors onto the attribute. *)
Definition nullish_or_primitive (v : value) : Prop :=
  match v with
  | VUndefined | VNull | VBool _ | VNumber _ | VString _ => True
  | _ => False
  end.

(** ** Three statements read literally, to be tested on the code *)

(** Every attribute other than [slot] is found in the resulting prop map
    under its literal name and under its camelCase name. *)
Definition attributes_copied (element : Node) (nodeName : option vtype)
  : Prop :=
  forall n v,
    In (n, v) (attributes element) -> n <> "slot" ->
    Obj.get (tree_props (toVdom element nodeName)) n = Some (VString v)
    /\ Obj.get (tree_props (toVdom element nodeName)) (toCamelCase n)
       = Some (VString v).

(** Every child carrying a non-empty slot name is found in the parent's prop
    map, wrapped, under that name. *)
Definition slotted_children_installed (element : Node)
    (nodeName : option vtype) : Prop :=
  forall c s,
    In c (childNodes element) -> slot c = Some s -> s <> "" ->
    Obj.get (tree_props (toVdom element nodeName)) s
    = Some (slot_forwarder s (toVdom c None)).

(** Nothing that happens after the first render changes [_props]. *)
Definition pendingProps_frozen (this : PreactElement) (context : value)
  : Prop :=
  forall evs,
    _props (run (connectedCallback context this) evs)
    = _props (connectedCallback context this).

(** ** The Context Provider *)

(** Prop names the rendering engine keeps for itself in [h] and
    [cloneElement]; for every other name a prop map behaves as the plain
    map it is modelled as. *)
Definition engine_reserved (name : string) : bool :=
  existsb (String.eqb name) ["key"; "ref"; "children"].

(** [ContextProvider], rendered for the node [v]: the value its
    [getChildContext] returns, and [cloneElement(children, rest)] where
    [rest] is the node's props without [context] and [children].  The
    children of the node are a tree whenever the bridge built it; for
    anything else the engine interface says nothing, hence [None]. *)
Definition ContextProvider (v : vnode) : value * option vnode :=
  (read (vnode_props v) "context",
   match vnode_children v with
   | VTree children =>
       Some (cloneElement children
               (Obj.remove (Obj.remove (vnode_props v) "context") "children"))
   | _ => None
   end).

(** The stored tree, when there is one, is a Context Provider node around a
    tree of the registered component. *)
Definition tree_shape (this : PreactElement) : Prop :=
  match _vdom this with
  | None => True
  | Some vd =>
      vnode_type vd = TContextProvider
      /\ exists child,
           vnode_children vd = VTree child
           /\ vnode_type child = TComponent (_vdomComponent this)
  end.

(** ** The Slot Forwarder and the context-request signal

    DOM elements are named by numbers.  A listener is the closure [Slot]
    creates: it is told apart by the Slot instance that owns it and carries
    the context it captured. *)

Record Listener : Type := mkListener {
  listener_owner : nat;
  listener_context : value
}.

(** The fields [Slot] keeps on its component instance. *)
Record SlotInstance : Type := mkSlot {
  slot_id : nat;
  ref : option nat;
  _listener : option Listener
}.

(** The [_preact] listeners of the document: element and listener, in the
    order they were added. *)
Definition Registry : Type := list (nat * Listener).

Definition same_listener (a b : Listener) : bool :=
  Nat.eqb (listener_owner a) (listener_owner b).

Definition registered (reg : Registry) (e : nat) (l : Listener) : bool :=
  existsb (fun x => Nat.eqb (fst x) e && same_listener (snd x) l) reg.

(** [e.addEventListener('_preact', l)]: a listener already on [e] is not
    added twice. *)
Definition addEventListener (reg : Registry) (e : nat) (l : Listener)
  : Registry :=
  if registered reg e l then reg else reg ++ [(e, l)].

(** [e.removeEventListener('_preact', l)]; with [l] undefined nothing
    happens. *)
Definition removeEventListener (reg : Registry) (e : nat)
    (l : option Listener) : Registry :=
  match l with
  | Some l =>
      filter (fun x => negb (Nat.eqb (fst x) e && same_listener (snd x) l))
             reg
  | None => reg
  end.

(** The [ref] callback of a render of [Slot] with the given [context],
    called by the engine with the [slot] element or with [null]. *)
Definition Slot_ref (context : value) (r : option nat)
    (this : SlotInstance) (reg : Registry)
  : completion (SlotInstance * Registry) :=
  match r with
  | None =>
      match ref this with
      | Some e => Normal (this, removeEventListener reg e (_listener this))
      | None => Throw TypeError
      end
  | Some e =>
      match _listener this with
      | Some l => Normal (mkSlot (slot_id this) (Some e) (Some l), reg)
      | None =>
          let l := mkListener (slot_id this) context in
          Normal (mkSlot (slot_id this) (Some e) (Some l),
                  addEventListener reg e l)
      end
  end.

(** A sequence of [ref] calls, each with the context of the render it
    belongs to; it stops at the first call that throws. *)
Fixpoint Slot_refs (calls : list (value * option nat))
    (this : SlotInstance) (reg : Registry)
  : completion (SlotInstance * Registry) :=
  match calls with
  | [] => Normal (this, reg)
  | (context, r) :: rest =>
      match Slot_ref context r this reg with
      | Normal (this', reg') => Slot_refs rest this' reg'
      | Throw e => Throw e
      end
  end.

(** The [_preact] signal: its payload and whether propagation was
    stopped. *)
Record CustomEvent : Type := mkEvent {
  detail : Obj.t value;
  stopped : bool
}.

(** The listener body: [event.stopPropagation(); event.detail.context =
    context]. *)
Definition listener_call (l : Listener) (event : CustomEvent) : CustomEvent :=
  mkEvent (Obj.set (detail event) "context" (listener_context l)) true.

(** The listeners of one element run in the order they were added;
    stopping propagation does not keep the others of that element from
    running. *)
Definition listeners_at (reg : Registry) (e : nat) (event : CustomEvent)
  : CustomEvent :=
  fold_left
    (fun event x => if Nat.eqb (fst x) e then listener_call (snd x) event
                    else event)
    reg event.

(** [dispatchEvent] of a bubbling signal: [path] is the target followed by
    its ancestors as the host walks them; once propagation is stopped the
    elements further up are not visited. *)
Definition dispatchEvent (reg : Registry) (path : list nat)
    (event : CustomEvent) : CustomEvent :=
  fold_left
    (fun event e => if stopped event then event else listeners_at reg e event)
    path event.

(** The first lines of [connectedCallback]: a signal with an empty payload
    is dispatched and [event.detail?.['context']] is read back. *)
Definition request_context (reg : Registry) (path : list nat) : value :=
  read (detail (dispatchEvent reg path (mkEvent [] false))) "context".

(** [connectedCallback] in a document with listeners [reg], for an element
    whose signal travels along [path]. *)
Definition connect_in (reg : Registry) (path : list nat)
    (this : PreactElement) : PreactElement :=
  connectedCallback (request_context reg path) this.

(** ** Histories without a connect or a disconnect *)

Definition is_lifecycle (ev : event) : bool :=
  match ev with
  | Connect _ | Disconnect => true
  | AttributeChanged _ _ _ | PropertySet _ _ => false
  end.

Definition no_lifecycle (evs : list event) : bool :=
  forallb (fun ev => negb (is_lifecycle ev)) evs.

(** The mount point an engine call is given. *)
Definition call_root (c : EngineCall) : Root :=
  match c with
  | Render _ root => root
  | Hydrate _ root => root
  end.

End Bridge.

Arguments VUndefined {number}.
Arguments VNull {number}.
Arguments VBool {number} b.
Arguments VNumber {number} n.
Arguments VString {number} s.
Arguments VOther {number} kind ref.
Arguments VArray {number} items.
Arguments VTree {number} v.
Arguments mkVNode {number} type props children.
Arguments vnode_type {number} v.
Arguments vnode_props {number} v.
Arguments vnode_children {number} v.
Arguments h {number} type props children.
Arguments cloneElement {number} v delta.
Arguments read {number} o k.
Arguments typeof {number} v.
Arguments is_nullish {number} v.
Arguments String_ {number} Number_toString v.
Arguments attribute_loop {number} a props.
Arguments child_loop {number} cn i props children.
Arguments toVdom {number} element nodeName.
Arguments Render {number} tree root.
Arguments Hydrate {number} tree root.
Arguments mkElement {number}.
Arguments el_nodeName {number} p.
Arguments el_attributes {number} p.
Arguments el_childNodes {number} p.
Arguments _vdomComponent {number} p.
Arguments _root {number} p.
Arguments _vdom {number} p.
Arguments _props {number} p.
Arguments accessors {number} p.
Arguments engine {number} p.
Arguments rendered {number} p.
Arguments with_attributes {number} this a.
Arguments attribute_value {number} a.
Arguments this_node {number} this.
Arguments constructor {number} cls nn attrs cn rendered.
Arguments with_vdom {number} this vd call.
Arguments with_props {number} this p.
Arguments setAttribute {number} this name value.
Arguments getAttribute {number} this name.
Arguments hasAttribute {number} this name.
Arguments spread {number} p.
Arguments connectedCallback {number} context this.
Arguments prop_delta {number} name newValue.
Arguments attributeChangedCallback {number} name oldValue newValue this.
Arguments disconnectedCallback {number} this.
Arguments getter {number} name this.
Arguments reflected {number} v.
Arguments setter {number} Number_toString name v this.
Arguments declared {number} name this.
Arguments property_get {number} name this.
Arguments property_set {number} Number_toString name v this.
Arguments Connect {number} context.
Arguments AttributeChanged {number} name oldValue newValue.
Arguments Disconnect {number}.
Arguments PropertySet {number} name v.
Arguments step {number} Number_toString this ev.
Arguments run {number} Number_toString this evs.
Arguments writes_while_rendered {number} Number_toString this evs.
Arguments first_time {number} this.
Arguments tree_props {number} v.
Arguments tree_children {number} v.
Arguments slot_forwarder {number} name vnode.
Arguments nullish_or_primitive {number} v.
Arguments pendingProps_frozen {number} Number_toString this context.
Arguments ContextProvider {number} v.
Arguments tree_shape {number} this.
Arguments mkListener {number} listener_owner listener_context.
Arguments listener_owner {number} l.
Arguments listener_context {number} l.
Arguments mkSlot {number} slot_id ref _listener.
Arguments slot_id {number} s.
Arguments ref {number} s.
Arguments _listener {number} s.
Arguments same_listener {number} a b.
Arguments registered {number} reg e l.
Arguments addEventListener {number} reg e l.
Arguments removeEventListener {number} reg e l.
Arguments Slot_ref {number} context r this reg.
Arguments Slot_refs {number} calls this reg.
Arguments mkEvent {number} detail stopped.
Arguments detail {number} c.
Arguments stopped {number} c.
Arguments listener_call {number} l event.
Arguments listeners_at {number} reg e event.
Arguments dispatchEvent {number} reg path event.
Arguments request_context {number} reg path.
Arguments connect_in {number} reg path this.
Arguments is_lifecycle {number} ev.
Arguments no_lifecycle {number} evs.
Arguments call_root {number} c.

(** ** Concrete documents and instances

    Numbers are instantiated with [nat], rendered in decimal. *)

Definition nat_toString (n : nat) : string :=
  NilEmpty.string_of_uint (Nat.to_uint n).

Definition text_node (s : string) : Node := mkNode 3 "#text" s [] [].

Definition comment_node (s : string) : Node := mkNode 8 "#comment" s [] [].

(** [<div a-1="x" a1="y"></div>] *)
Definition clashing_attributes : Node :=
  mkNode 1 "DIV" "" [("a-1", "x"); ("a1", "y")] [].

(** [<x-outer><a slot="s"></a><b slot="s"></b></x-outer>] *)
Definition shared_slot : Node :=
  mkNode 1 "X-OUTER" ""
    [] [mkNode 1 "A" "" [("slot", "s")] []; mkNode 1 "B" "" [("slot", "s")] []].

(** [<x-outer data-id="7" slot="top"><x-inner slot="body">text</x-inner>tail<p></p></x-outer>] *)
Definition outer_markup : Node :=
  mkNode 1 "X-OUTER" ""
    [("data-id", "7"); ("slot", "top")]
    [mkNode 1 "X-INNER" "" [("slot", "body")] [text_node "text"];
     text_node "tail";
     mkNode 1 "P" "" [] []].

(** The component of the [x-greet] scenario: it declares [label] as an
    observed attribute. *)
Definition Greet : Component.t :=
  Component.mk (Some ["label"]) None None None "Greet".

(** [register(Greet, 'x-greet', ['label'])] and an instance the host built
    from [<x-greet label="Hi"></x-greet>]. *)
Definition greet_class : PreactElementClass :=
  snd (register Greet (Some "x-greet") (Some ["label"]) None).

(** An engine and component that leave one paragraph in the element they
    render into, and nothing after the empty tree. *)
Definition one_paragraph : Rendered nat :=
  fun _ call _ =>
    match call with
    | Render None _ => []
    | _ => [mkNode 1 "P" "" [] []]
    end.

Definition greet_element : PreactElement nat :=
  mkElement "X-GREET" [("label", "Hi")] [] Greet RootSelf None None
            ["label"] [] one_paragraph.

Definition greet_rendered : PreactElement nat :=
  connectedCallback VUndefined greet_element.

(** An unattached [<x-list></x-list>] with the declared property
    [item-count]. *)
Definition list_element : PreactElement nat :=
  mkElement "X-LIST" [] [] Greet RootSelf None None ["item-count"] []
            one_paragraph.

(** [<x-greet label="Hi">hello</x-greet>] with a closed shadow root. *)
Definition shadow_element : PreactElement nat :=
  mkElement "X-GREET" [("label", "Hi")] [text_node "hello"] Greet
            (RootShadow Closed) None None ["label"] [] one_paragraph.

(** An unattached [<x-counter></x-counter>] with the declared property
    [itemCount]. *)
Definition counter_element : PreactElement nat :=
  mkElement "X-COUNTER" [] [] Greet RootSelf None None ["itemCount"] []
            one_paragraph.

(** A Slot instance whose [ref] callback was never called, and a document
    without [_preact] listeners. *)
Definition fresh_slot : SlotInstance nat := mkSlot 7 None None.

Definition no_listeners : Registry nat := [].

(** The tree the first connection of [greet_element] stores. *)
Definition greet_tree : vnode nat :=
  h TContextProvider (Some [("context", VUndefined)])
    (toVdom (this_node greet_element) (Some (TComponent Greet))).

(** * Properties *)

(** ** Objects and arrays *)

Lemma Obj_get_set_same {A} (o : Obj.t A) k v :
  Obj.get (Obj.set o k v) k = Some v.
Proof.
  induction o as [|[k' v'] o IH]; simpl.
  - now rewrite String.eqb_refl.
  - destruct (String.eqb k' k) eqn:E; simpl; rewrite E; auto.
Qed.

Lemma Obj_get_set_other {A} (o : Obj.t A) k v k' :
  k <> k' -> Obj.get (Obj.set o k v) k' = Obj.get o k'.
Proof.
  intros Hne. induction o as [|[k0 v0] o IH]; simpl.
  - destruct (String.eqb k k') eqn:E; auto.
    apply String.eqb_eq in E. contradiction.
  - destruct (String.eqb k0 k) eqn:E; simpl.
    + apply String.eqb_eq in E. subst k0.
      destruct (String.eqb k k') eqn:E'; auto.
      apply String.eqb_eq in E'. contradiction.
    + destruct (String.eqb k0 k'); auto.
Qed.

Lemma Obj_has_set {A} (o : Obj.t A) k v k' :
  Obj.has o k' = true -> Obj.has (Obj.set o k v) k' = true.
Proof.
  unfold Obj.has. destruct (String.eqb k k') eqn:E.
  - apply String.eqb_eq in E. subst k'. now rewrite Obj_get_set_same.
  - apply String.eqb_neq in E. now rewrite Obj_get_set_other.
Qed.

Lemma Obj_has_set_same {A} (o : Obj.t A) k v :
  Obj.has (Obj.set o k v) k = true.
Proof. unfold Obj.has. now rewrite Obj_get_set_same. Qed.

Lemma Arr_at_nil {A} j : Arr.at_ (@nil (option A)) j = None.
Proof. unfold Arr.at_. now destruct j. Qed.

Lemma Arr_at_succ {A} (x : option A) (a : Arr.t A) j :
  Arr.at_ (x :: a) (S j) = Arr.at_ a j.
Proof. reflexivity. Qed.

Lemma Arr_at_put {A} (a : Arr.t A) i v j :
  Arr.at_ (Arr.put a i v) j = if Nat.eqb j i then Some v else Arr.at_ a j.
Proof.
  revert a j.
  induction i as [|i IH]; intros [|x a] [|j]; simpl; try reflexivity.
  - now rewrite !Arr_at_succ, !Arr_at_nil.
  - rewrite Arr_at_succ, IH. now rewrite !Arr_at_nil.
  - rewrite !Arr_at_succ. apply IH.
Qed.

(** ** [toCamelCase] *)

Lemma char_toUpperCase_not_lower c : is_lower (char_toUpperCase c) = false.
Proof.
  destruct c as [[] [] [] [] [] [] [] []]; reflexivity.
Qed.

(** A camel-cased name made of lower-case letters only had nothing to
    replace. *)
Lemma toCamelCase_all_lower s :
  all_lower (toCamelCase s) = true -> toCamelCase s = s.
Proof.
  induction s as [|c rest IH]; simpl; auto.
  destruct (is_hyphen c) eqn:Hh.
  - unfold is_hyphen in Hh. apply Ascii.eqb_eq in Hh. subst c.
    destruct rest as [|d rest'].
    + simpl. discriminate.
    + destruct (is_word d).
      * simpl. rewrite char_toUpperCase_not_lower. discriminate.
      * simpl. discriminate.
  - destruct rest as [|d rest']; simpl in *.
    + auto.
    + intros H. apply andb_true_iff in H as [_ H]. now rewrite IH.
Qed.

Lemma toCamelCase_slot n : toCamelCase n = "slot" -> n = "slot".
Proof.
  intros H. rewrite <- H. symmetry. apply toCamelCase_all_lower.
  now rewrite H.
Qed.

Lemma toCamelCase_changed_not_lower name target :
  all_lower target = true ->
  toCamelCase name <> name -> toCamelCase name <> target.
Proof.
  intros Hl Hne Heq. apply Hne. apply toCamelCase_all_lower.
  now rewrite Heq.
Qed.

Lemma toCamelCase_changed_not_reserved name :
  toCamelCase name <> name -> engine_reserved (toCamelCase name) = false.
Proof.
  intros Hne. destruct (engine_reserved (toCamelCase name)) eqn:E; auto.
  unfold engine_reserved in E. simpl in E.
  repeat (apply orb_true_iff in E as [E|E]); try discriminate;
    apply String.eqb_eq in E;
    elim Hne; apply toCamelCase_all_lower; rewrite E; reflexivity.
Qed.

Lemma toCamelCase_keeps_unreserved name :
  engine_reserved name = false -> engine_reserved (toCamelCase name) = false.
Proof.
  intros H. destruct (string_dec (toCamelCase name) name) as [E|E].
  - now rewrite E.
  - now apply toCamelCase_changed_not_reserved.
Qed.

Section Projector.

Variable number : Type.

Let obj : Type := Obj.t (value number).

(** ** The attribute loop *)

Lemma attribute_loop_app (l1 l2 : Obj.t string) (p : obj) :
  attribute_loop (l1 ++ l2) p = attribute_loop l2 (attribute_loop l1 p).
Proof. unfold attribute_loop. apply fold_left_app. Qed.

Lemma attribute_loop_cons n v (l : Obj.t string) (p : obj) :
  attribute_loop ((n, v) :: l) p
  = attribute_loop l
      (if negb (String.eqb n "slot")
       then Obj.set (Obj.set p n (VString v)) (toCamelCase n) (VString v)
       else p).
Proof. reflexivity. Qed.

(** Attributes whose literal and camelCase names both differ from [k] leave
    the key [k] alone. *)
Lemma attribute_loop_untouched (l : Obj.t string) (p : obj) k :
  (forall n v, In (n, v) l -> n <> "slot" -> n <> k /\ toCamelCase n <> k) ->
  Obj.get (attribute_loop l p) k = Obj.get p k.
Proof.
  revert p. induction l as [|[n v] l IH]; intros p Hl; auto.
  rewrite attribute_loop_cons, IH.
  - destruct (String.eqb n "slot") eqn:E; simpl; auto.
    apply String.eqb_neq in E.
    destruct (Hl n v (or_introl eq_refl) E) as [H1 H2].
    now rewrite !Obj_get_set_other.
  - intros n' v' Hin. apply (Hl n' v'). now right.
Qed.

Lemma attribute_loop_keeps_keys (l : Obj.t string) (p : obj) k :
  Obj.has p k = true -> Obj.has (attribute_loop l p) k = true.
Proof.
  revert p. induction l as [|[n v] l IH]; intros p Hp; auto.
  rewrite attribute_loop_cons. apply IH.
  destruct (negb (String.eqb n "slot")); auto using Obj_has_set.
Qed.

(** The key ["slot"] is never written by the attribute loop. *)
Lemma attribute_loop_slot (l : Obj.t string) (p : obj) :
  Obj.get (attribute_loop l p) "slot" = Obj.get p "slot".
Proof.
  apply attribute_loop_untouched. intros n v _ Hn. split; auto.
  intros H. apply Hn. now apply toCamelCase_slot.
Qed.

Lemma attribute_write_get (p : obj) n (x : value number) k :
  k = n \/ k = toCamelCase n ->
  Obj.get (Obj.set (Obj.set p n x) (toCamelCase n) x) k = Some x.
Proof.
  intros [-> | ->].
  - destruct (String.eqb (toCamelCase n) n) eqn:E.
    + apply String.eqb_eq in E. rewrite E. apply Obj_get_set_same.
    + apply String.eqb_neq in E.
      rewrite Obj_get_set_other by exact E. apply Obj_get_set_same.
  - apply Obj_get_set_same.
Qed.

(** The last attribute that writes [k] decides its value. *)
Lemma attribute_loop_last (l1 l2 : Obj.t string) n v (p : obj) k :
  n <> "slot" ->
  k = n \/ k = toCamelCase n ->
  (forall n' v', In (n', v') l2 -> n' <> "slot" ->
                 n' <> k /\ toCamelCase n' <> k) ->
  Obj.get (attribute_loop (l1 ++ (n, v) :: l2) p) k = Some (VString v).
Proof.
  intros Hn Hk Hl2.
  rewrite attribute_loop_app, attribute_loop_cons.
  rewrite attribute_loop_untouched by exact Hl2.
  apply String.eqb_neq in Hn. rewrite Hn. simpl.
  now apply attribute_write_get.
Qed.

(** ** The child loop *)

Lemma child_loop_succ (cn : list (value number * option string)) i p ch :
  child_loop cn (S i) p ch
  = match nth_error cn i with
    | Some (vnode, name) =>
        if truthy_name name
        then child_loop cn i
               (Obj.set p (name_text name)
                  (slot_forwarder (name_text name) vnode)) ch
        else child_loop cn i p (Arr.put ch i vnode)
    | None => child_loop cn i p ch
    end.
Proof. reflexivity. Qed.

(** Children whose slot name differs from [k] leave the key [k] alone. *)
Lemma child_loop_untouched (cn : list (value number * option string)) i p ch k :
  (forall j v nm, j < i -> nth_error cn j = Some (v, nm) ->
                  truthy_name nm = true -> name_text nm <> k) ->
  Obj.get (fst (child_loop cn i p ch)) k = Obj.get p k.
Proof.
  revert p ch. induction i as [|i IH]; intros p ch Hcn; auto.
  rewrite child_loop_succ.
  assert (Hlt : forall j v nm, j < i -> nth_error cn j = Some (v, nm) ->
                  truthy_name nm = true -> name_text nm <> k)
    by (intros j v nm Hj; apply Hcn; lia).
  destruct (nth_error cn i) as [[v nm]|] eqn:E; [|now apply IH].
  destruct (truthy_name nm) eqn:T; [|now apply IH].
  rewrite IH by exact Hlt.
  apply Obj_get_set_other. apply (Hcn i v nm); auto.
Qed.

(** Of the children that carry the slot name [k], the first in document
    order is the one found under [k]. *)
Lemma child_loop_first (cn : list (value number * option string)) i p ch i0 v nm k :
  i0 < i ->
  nth_error cn i0 = Some (v, nm) ->
  truthy_name nm = true ->
  name_text nm = k ->
  (forall j v' nm', j < i0 -> nth_error cn j = Some (v', nm') ->
                    truthy_name nm' = true -> name_text nm' <> k) ->
  Obj.get (fst (child_loop cn i p ch)) k = Some (slot_forwarder k v).
Proof.
  intros Hi Hnth Ht Hk Hfirst. revert p ch.
  induction i as [|i IH]; intros p ch; [lia|].
  rewrite child_loop_succ.
  destruct (Nat.eq_dec i i0) as [->|Hne].
  - rewrite Hnth, Ht.
    rewrite child_loop_untouched by exact Hfirst.
    rewrite Hk. apply Obj_get_set_same.
  - assert (Hlt : i0 < i) by lia.
    destruct (nth_error cn i) as [[v' nm']|]; [|now apply IH].
    destruct (truthy_name nm'); now apply IH.
Qed.

(** Index by index: an unslotted child's projection sits at the child's own
    index; the loop writes nothing at the index of a slotted child. *)
Lemma child_loop_children (cn : list (value number * option string)) i p ch j :
  Arr.at_ (snd (child_loop cn i p ch)) j
  = if Nat.ltb j i then
      match nth_error cn j with
      | Some (v, nm) => if truthy_name nm then Arr.at_ ch j else Some v
      | None => Arr.at_ ch j
      end
    else Arr.at_ ch j.
Proof.
  revert p ch. induction i as [|i IH]; intros p ch; auto.
  rewrite child_loop_succ.
  destruct (Nat.ltb_spec j (S i)) as [Hlt|Hge].
  - destruct (Nat.eq_dec j i) as [->|Hne].
    + destruct (nth_error cn i) as [[v nm]|] eqn:E.
      * destruct (truthy_name nm) eqn:T; rewrite IH, Nat.ltb_irrefl; auto.
        now rewrite Arr_at_put, Nat.eqb_refl.
      * now rewrite IH, Nat.ltb_irrefl.
    + assert (Hj : Nat.ltb j i = true) by (apply Nat.ltb_lt; lia).
      destruct (nth_error cn i) as [[v nm]|] eqn:E.
      * destruct (truthy_name nm) eqn:T; rewrite IH, Hj; auto.
        rewrite Arr_at_put.
        assert (Hji : Nat.eqb j i = false) by (apply Nat.eqb_neq; lia).
        now rewrite Hji.
      * now rewrite IH, Hj.
  - assert (Hj : Nat.ltb j i = false) by (apply Nat.ltb_ge; lia).
    destruct (nth_error cn i) as [[v nm]|] eqn:E.
    + destruct (truthy_name nm) eqn:T; rewrite IH, Hj; auto.
      rewrite Arr_at_put.
      assert (Hji : Nat.eqb j i = false) by (apply Nat.eqb_neq; lia).
      now rewrite Hji.
    + now rewrite IH, Hj.
Qed.

Lemma child_loop_keeps_keys (cn : list (value number * option string))
    i p ch k :
  Obj.has p k = true -> Obj.has (fst (child_loop cn i p ch)) k = true.
Proof.
  revert p ch. induction i as [|i IH]; intros p ch Hp; auto.
  rewrite child_loop_succ.
  destruct (nth_error cn i) as [[v nm]|]; [|now apply IH].
  destruct (truthy_name nm); apply IH; auto using Obj_has_set.
Qed.

(** The child loop stores Slot Forwarders only, never a string. *)
Lemma child_loop_no_string (cn : list (value number * option string))
    i p ch k :
  (forall s, Obj.get p k <> Some (VString s)) ->
  forall s, Obj.get (fst (child_loop cn i p ch)) k <> Some (VString s).
Proof.
  revert p ch. induction i as [|i IH]; intros p ch Hp; auto.
  rewrite child_loop_succ.
  destruct (nth_error cn i) as [[v nm]|]; [|now apply IH].
  destruct (truthy_name nm); apply IH; auto.
  intros s. destruct (String.eqb (name_text nm) k) eqn:E.
  - apply String.eqb_eq in E. rewrite E, Obj_get_set_same. discriminate.
  - apply String.eqb_neq in E. rewrite Obj_get_set_other; auto.
Qed.

(** What [toVdom] does on an element node, loop by loop. *)
Lemma toVdom_element nn d a (cn : list Node) (nodeName : option vtype) :
  toVdom (mkNode 1 nn d a cn) nodeName
  = VTree
      (h (type_or nodeName (TTag (toLowerCase nn)))
         (Some (fst (child_loop
                       (map (fun c => (@toVdom number c None, slot c)) cn)
                       (length
                          (map (fun c => (@toVdom number c None, slot c)) cn))
                       (attribute_loop a []) [])))
         (if truthy_type nodeName
          then VTree (h TSlot None
                        (VArray
                           (snd (child_loop
                                   (map (fun c => (@toVdom number c None,
                                                   slot c)) cn)
                                   (length
                                      (map (fun c => (@toVdom number c None,
                                                      slot c)) cn))
                                   (attribute_loop a []) []))))
          else VArray
                 (snd (child_loop
                         (map (fun c => (@toVdom number c None, slot c)) cn)
                         (length
                            (map (fun c => (@toVdom number c None, slot c))
                                 cn))
                         (attribute_loop a []) [])))).
Proof.
  simpl. unfold isComment, isElement, element_nodeName. simpl.
  destruct (child_loop _ _ _ _) as [props children]. reflexivity.
Qed.

Lemma nth_error_projected (cn : list Node) j c :
  nth_error cn j = Some c ->
  nth_error (map (fun c => (@toVdom number c None, slot c)) cn) j
  = Some (toVdom c None, slot c).
Proof. intros H. now rewrite nth_error_map, H. Qed.

Lemma nth_error_projected_inv (cn : list Node) j v nm :
  nth_error (map (fun c => (@toVdom number c None, slot c)) cn) j
  = Some (v, nm) ->
  exists c, nth_error cn j = Some c /\ v = toVdom c None /\ nm = slot c.
Proof.
  rewrite nth_error_map. destruct (nth_error cn j) as [c|]; simpl; [|discriminate].
  intros H. injection H as <- <-. now exists c.
Qed.

Lemma truthy_name_spec (nm : option string) :
  truthy_name nm = true <-> exists s, nm = Some s /\ s <> "".
Proof.
  destruct nm as [s|]; simpl.
  - rewrite negb_true_iff, String.eqb_neq. split.
    + intros H. now exists s.
    + intros (s' & E & H). now injection E as ->.
  - split; [discriminate|]. intros (s & E & _). discriminate.
Qed.

(** C2. A node of type 3 projects to its character data, verbatim; a node
    that is neither of type 3 nor an element projects to [null]. *)
Theorem toVdom_text_and_other_nodes (element : Node) (nodeName : option vtype) :
  (nodeType element = 3 ->
   @toVdom number element nodeName = VString (data element))
  /\ (nodeType element <> 3 -> nodeType element <> 1 ->
      @toVdom number element nodeName = VNull).
Proof.
  destruct element as [ty nn d a cn]. split.
  - intros H. simpl in H. subst ty. reflexivity.
  - intros H3 H1. simpl in H3, H1.
    apply Nat.eqb_neq in H3. apply Nat.eqb_neq in H1.
    simpl. unfold isComment, isElement. simpl.
    now rewrite H3, H1.
Qed.



End Projector.

(** ** The lifecycle controller and the accessors *)

Section Lifecycle.

Variable number : Type.
Variable Number_toString : number -> string.

Let element : Type := PreactElement number.

Lemma prop_delta_get name (newValue : value number) k :
  k = name \/ k = toCamelCase name ->
  Obj.get (prop_delta name newValue) k
  = Some (if is_nullish newValue then VUndefined else newValue).
Proof. intros Hk. unfold prop_delta. now apply attribute_write_get. Qed.

Lemma prop_delta_other name (newValue : value number) k :
  k <> name -> k <> toCamelCase name ->
  Obj.get (prop_delta name newValue) k = None.
Proof.
  intros H1 H2. unfold prop_delta.
  rewrite !Obj_get_set_other; auto.
Qed.

(** Merging the delta writes its two keys and nothing else. *)
Lemma assign_prop_delta_get (p : Obj.t (value number)) name newValue k :
  Obj.get (Obj.assign p (prop_delta name newValue)) k
  = Obj.get
      (Obj.set
         (Obj.set p name (if is_nullish newValue then VUndefined else newValue))
         (toCamelCase name)
         (if is_nullish newValue then VUndefined else newValue)) k.
Proof.
  unfold prop_delta, Obj.assign. simpl.
  destruct (String.eqb name (toCamelCase name)) eqn:E; simpl; auto.
  apply String.eqb_eq in E. rewrite <- E.
  destruct (String.eqb name k) eqn:Ek.
  - apply String.eqb_eq in Ek. subst k. now rewrite !Obj_get_set_same.
  - apply String.eqb_neq in Ek. now rewrite !Obj_get_set_other.
Qed.

Lemma cloneElement_delta_get (vd : vnode number) name newValue k :
  k = name \/ k = toCamelCase name ->
  Obj.get (vnode_props (cloneElement vd (prop_delta name newValue))) k
  = Some (if is_nullish newValue then VUndefined else newValue).
Proof.
  intros Hk. destruct vd as [ty p c]. simpl.
  rewrite assign_prop_delta_get. now apply attribute_write_get.
Qed.

Lemma cloneElement_delta_other (vd : vnode number) name newValue k :
  k <> name -> k <> toCamelCase name ->
  Obj.get (vnode_props (cloneElement vd (prop_delta name newValue))) k
  = Obj.get (vnode_props vd) k.
Proof.
  intros H1 H2. destruct vd as [ty p c]. simpl.
  rewrite assign_prop_delta_get. rewrite !Obj_get_set_other; auto.
Qed.

Lemma attributeChangedCallback_rendered name oldValue newValue
    (this : element) vd :
  _vdom this = Some vd ->
  attributeChangedCallback name oldValue newValue this
  = with_vdom this (Some (cloneElement vd (prop_delta name newValue)))
      (Render (Some (cloneElement vd (prop_delta name newValue)))
              (_root this)).
Proof. intros H. unfold attributeChangedCallback. now rewrite H. Qed.

Lemma reflected_spec (v : value number) :
  reflected v = true <-> nullish_or_primitive v.
Proof.
  destruct v as [| | b | n | s | [] r | items | t]; simpl;
    intuition discriminate.
Qed.

Lemma attributeChangedCallback_frame name oldValue newValue (this : element) :
  el_attributes (attributeChangedCallback name oldValue newValue this)
  = el_attributes this
  /\ _props (attributeChangedCallback name oldValue newValue this)
     = _props this
  /\ accessors (attributeChangedCallback name oldValue newValue this)
     = accessors this
  /\ _root (attributeChangedCallback name oldValue newValue this)
     = _root this
  /\ _vdomComponent (attributeChangedCallback name oldValue newValue this)
     = _vdomComponent this
  /\ el_nodeName (attributeChangedCallback name oldValue newValue this)
     = el_nodeName this.
Proof.
  unfold attributeChangedCallback. destruct (_vdom this); simpl; auto 10.
Qed.

Lemma attributeChangedCallback_vdom name oldValue newValue (this : element) :
  _vdom (attributeChangedCallback name oldValue newValue this)
  = match _vdom this with
    | Some vd => Some (cloneElement vd (prop_delta name newValue))
    | None => None
    end.
Proof.
  unfold attributeChangedCallback. destruct (_vdom this) eqn:E; simpl; auto.
Qed.

Lemma attributeChangedCallback_engine name oldValue newValue (this : element) :
  engine (attributeChangedCallback name oldValue newValue this)
  = match _vdom this with
    | Some vd =>
        engine this
        ++ [Render (Some (cloneElement vd (prop_delta name newValue)))
                   (_root this)]
    | None => engine this
    end.
Proof.
  unfold attributeChangedCallback. destruct (_vdom this) eqn:E; simpl; auto.
Qed.

(** The host's [setAttribute], field by field. *)
Lemma setAttribute_frame (this : element) name text :
  el_attributes (setAttribute this name text)
  = Obj.set (el_attributes this) (ascii_lowercase name) text
  /\ _props (setAttribute this name text) = _props this
  /\ accessors (setAttribute this name text) = accessors this
  /\ _root (setAttribute this name text) = _root this
  /\ _vdomComponent (setAttribute this name text) = _vdomComponent this
  /\ el_nodeName (setAttribute this name text) = el_nodeName this.
Proof.
  unfold setAttribute.
  destruct (declared (ascii_lowercase name) this); [|simpl; auto 10].
  destruct (attributeChangedCallback_frame (ascii_lowercase name)
              (attribute_value
                 (Obj.get (el_attributes this) (ascii_lowercase name)))
              (VString text)
              (with_attributes this
                 (Obj.set (el_attributes this) (ascii_lowercase name) text)))
    as (H1 & H2 & H3 & H4 & H5 & H6).
  rewrite H1, H2, H3, H4, H5, H6. simpl. auto 10.
Qed.

Lemma setAttribute_vdom (this : element) name text :
  _vdom (setAttribute this name text)
  = match _vdom this with
    | Some vd =>
        Some (if declared (ascii_lowercase name) this
              then cloneElement vd
                     (prop_delta (ascii_lowercase name) (VString text))
              else vd)
    | None => None
    end.
Proof.
  unfold setAttribute.
  destruct (declared (ascii_lowercase name) this).
  - rewrite attributeChangedCallback_vdom. reflexivity.
  - simpl. now destruct (_vdom this).
Qed.

Lemma setAttribute_engine (this : element) name text :
  engine (setAttribute this name text)
  = match _vdom this with
    | Some vd =>
        if declared (ascii_lowercase name) this
        then engine this
             ++ [Render (Some (cloneElement vd
                                 (prop_delta (ascii_lowercase name)
                                             (VString text))))
                        (_root this)]
        else engine this
    | None => engine this
    end.
Proof.
  unfold setAttribute.
  destruct (declared (ascii_lowercase name) this).
  - rewrite attributeChangedCallback_engine. reflexivity.
  - simpl. now destruct (_vdom this).
Qed.

Lemma setter_attributes name v (this : element) :
  el_attributes (setter Number_toString name v this)
  = if reflected v
    then Obj.set (el_attributes this) (ascii_lowercase name)
                 (String_ Number_toString v)
    else el_attributes this.
Proof.
  unfold setter.
  assert (H : el_attributes
                match _vdom this with
                | Some _ => attributeChangedCallback name VNull v this
                | None =>
                    with_props this (Obj.set (spread (_props this)) name v)
                end = el_attributes this).
  { destruct (_vdom this) eqn:E; [|reflexivity].
    apply attributeChangedCallback_frame. }
  destruct (reflected v); [|exact H].
  rewrite (proj1 (setAttribute_frame _ _ _)). now rewrite H.
Qed.

Lemma setter_rendered name v (this : element) vd :
  _vdom this = Some vd ->
  _vdom (setter Number_toString name v this)
  = Some (if reflected v && declared (ascii_lowercase name) this
          then cloneElement (cloneElement vd (prop_delta name v))
                 (prop_delta (ascii_lowercase name)
                             (VString (String_ Number_toString v)))
          else cloneElement vd (prop_delta name v))
  /\ engine (setter Number_toString name v this)
     = engine (attributeChangedCallback name VNull v this)
       ++ (if reflected v && declared (ascii_lowercase name) this
           then [Render
                   (Some (cloneElement (cloneElement vd (prop_delta name v))
                            (prop_delta (ascii_lowercase name)
                               (VString (String_ Number_toString v)))))
                   (_root this)]
           else [])
  /\ _props (setter Number_toString name v this) = _props this
  /\ _root (setter Number_toString name v this) = _root this.
Proof.
  intros H. unfold setter. rewrite H.
  destruct (attributeChangedCallback_frame name VNull v this)
    as (_ & Hp & Ha & Hr & _).
  pose proof (attributeChangedCallback_vdom name VNull v this) as Hv.
  rewrite H in Hv.
  destruct (reflected v); simpl.
  - rewrite setAttribute_vdom, setAttribute_engine, Hv.
    destruct (setAttribute_frame (attributeChangedCallback name VNull v this)
                name (String_ Number_toString v)) as (_ & Hp' & _ & Hr' & _).
    rewrite Hp', Hr', Hp, Hr. unfold declared. rewrite Ha.
    fold (declared (ascii_lowercase name) this).
    destruct (declared (ascii_lowercase name) this); simpl;
      rewrite ?app_nil_r; auto.
  - rewrite Hv, app_nil_r. auto.
Qed.

Lemma setter_unrendered name v (this : element) :
  _vdom this = None ->
  _vdom (setter Number_toString name v this) = None
  /\ _props (setter Number_toString name v this)
     = Some (Obj.set (spread (_props this)) name v)
  /\ engine (setter Number_toString name v this) = engine this.
Proof.
  intros H. unfold setter. rewrite H.
  destruct (reflected v); [|simpl; auto].
  rewrite setAttribute_vdom, setAttribute_engine.
  rewrite (proj1 (proj2 (setAttribute_frame _ _ _))).
  simpl. rewrite H. auto.
Qed.

Lemma setter_frame name v (this : element) :
  accessors (setter Number_toString name v this) = accessors this
  /\ _root (setter Number_toString name v this) = _root this
  /\ _vdomComponent (setter Number_toString name v this)
     = _vdomComponent this
  /\ el_nodeName (setter Number_toString name v this) = el_nodeName this.
Proof.
  unfold setter.
  set (this1 := match _vdom this with
                | Some _ => attributeChangedCallback name VNull v this
                | None =>
                    with_props this (Obj.set (spread (_props this)) name v)
                end).
  assert (H : accessors this1 = accessors this
              /\ _root this1 = _root this
              /\ _vdomComponent this1 = _vdomComponent this
              /\ el_nodeName this1 = el_nodeName this).
  { unfold this1. destruct (_vdom this) eqn:E; [|simpl; auto].
    destruct (attributeChangedCallback_frame name VNull v this)
      as (_ & _ & H3 & H4 & H5 & H6). auto. }
  destruct H as (H3 & H4 & H5 & H6).
  destruct (reflected v); [|auto].
  destruct (setAttribute_frame this1 name (String_ Number_toString v))
    as (_ & _ & S3 & S4 & S5 & S6).
  rewrite S3, S4, S5, S6. auto.
Qed.

Lemma step_accessors (this : element) ev :
  accessors (step Number_toString this ev) = accessors this.
Proof.
  destruct ev as [c | n o v | | n v]; simpl; auto.
  - apply attributeChangedCallback_frame.
  - unfold property_set. destruct (declared n this); auto.
    apply setter_frame.
Qed.

Lemma run_accessors (this : element) evs :
  accessors (run Number_toString this evs) = accessors this.
Proof.
  revert this. induction evs as [|ev evs IH]; intros this; auto.
  unfold run in *. simpl. now rewrite IH, step_accessors.
Qed.

Lemma property_set_rendered_props name v (this : element) :
  _vdom this <> None ->
  _props (property_set Number_toString name v this) = _props this.
Proof.
  intros H. unfold property_set. destruct (declared name this); auto.
  destruct (_vdom this) as [vd|] eqn:E; [|contradiction].
  now apply (setter_rendered name v this vd).
Qed.

Lemma attributeChangedCallback_props name oldValue newValue (this : element) :
  _props (attributeChangedCallback name oldValue newValue this) = _props this.
Proof. unfold attributeChangedCallback. now destruct (_vdom this). Qed.

(** Along a history whose property writes are all made while a render tree
    is stored, [_props] never changes. *)
Lemma run_props (this : element) evs :
  writes_while_rendered Number_toString this evs = true ->
  _props (run Number_toString this evs) = _props this.
Proof.
  revert this. induction evs as [|ev evs IH]; intros this H; auto.
  simpl in H. apply andb_true_iff in H as [Hev Hrest].
  unfold run in *. simpl. rewrite IH by exact Hrest.
  destruct ev as [c | n o v | | n v]; simpl; auto.
  - apply attributeChangedCallback_props.
  - apply property_set_rendered_props.
    destruct (_vdom this); [discriminate|discriminate].
Qed.

Lemma getter_disconnected name (this : element) :
  getter name (disconnectedCallback this) = read (spread (_props this)) name.
Proof. unfold getter. simpl. now destruct (_props this). Qed.

(** [connectedCallback] reads the light DOM, the pending props and the
    component, and nothing else of the instance. *)
Lemma connectedCallback_vdom_ext (a b : element) context :
  el_nodeName a = el_nodeName b ->
  el_attributes a = el_attributes b ->
  el_childNodes a = el_childNodes b ->
  _props a = _props b ->
  _vdomComponent a = _vdomComponent b ->
  _vdom (connectedCallback context a) = _vdom (connectedCallback context b).
Proof.
  intros Hn Ha Hc Hp Hv. unfold connectedCallback, with_vdom, this_node.
  cbn [_vdom]. now rewrite Hn, Ha, Hc, Hp, Hv.
Qed.

(** What the constructor returns has never been connected. *)
Lemma first_time_constructed (cls : PreactElementClass) nn attrs cn r
    (this : element) :
  constructor cls nn attrs cn r = Normal this -> first_time this = this.
Proof.
  unfold constructor. destruct (propsToDefine cls); [|discriminate].
  intros H. injection H as <-. reflexivity.
Qed.

(** With [propNames] omitted the class observes nothing and its constructor
    throws, whatever the component declares. *)
Lemma register_without_propNames (Component : Component.t)
    (tagName : option string) (options : option Options) nn attrs cn r :
  static_observedAttributes (snd (register Component tagName None options))
  = None
  /\ @constructor number (snd (register Component tagName None options))
       nn attrs cn r
     = Throw TypeError.
Proof. split; reflexivity. Qed.



(** C7. Before any render has occurred an attribute-change notification is
    a no-op: the callback returns normally and the instance, with its stored
    tree, pending props, root and the list of engine calls, is what it
    was. *)
Theorem attribute_change_before_render name oldValue newValue
    (this : element) :
  _vdom this = None ->
  attributeChangedCallback name oldValue newValue this = this.
Proof. intros H. unfold attributeChangedCallback. now rewrite H. Qed.



(** C10, amended. No lifecycle transition touches [_props], and neither
    does a property write made while a render tree is stored; a write to a
    declared property made while no tree is stored, before the first
    connection or after a disconnect, stores the value in [_props].  Along a
    history whose writes are all made while a tree is stored [_props] is
    what it was at the start, and after a disconnect a declared property
    reads the value [_props] holds, not the one of the last rendered
    tree. *)
Theorem pendingProps_only_written_unrendered (this : element) :
  ((forall context, _props (connectedCallback context this) = _props this)
   /\ (forall name oldValue newValue,
          _props (attributeChangedCallback name oldValue newValue this)
          = _props this)
   /\ _props (disconnectedCallback this) = _props this)
  /\ (forall name v,
         _vdom this <> None ->
         _props (property_set Number_toString name v this) = _props this)
  /\ (forall name v,
         _vdom this = None -> declared name this = true ->
         _props (property_set Number_toString name v this)
         = Some (Obj.set (spread (_props this)) name v))
  /\ (forall name,
         declared name this = true ->
         property_get name (disconnectedCallback this)
         = Some (read (spread (_props this)) name))
  /\ (forall evs name,
         writes_while_rendered Number_toString this evs = true ->
         declared name this = true ->
         _props (run Number_toString this evs) = _props this
         /\ property_get name
              (disconnectedCallback (run Number_toString this evs))
            = Some (read (spread (_props this)) name)).
Proof.
  repeat split.
  - intros name oldValue newValue. apply attributeChangedCallback_props.
  - intros name v. apply property_set_rendered_props.
  - intros name v Hvd Hdecl. unfold property_set. rewrite Hdecl.
    exact (proj1 (proj2 (setter_unrendered name v this Hvd))).
  - intros name Hdecl. unfold property_get.
    replace (declared name (disconnectedCallback this)) with true
      by (symmetry; exact Hdecl).
    now rewrite getter_disconnected.
  - now apply run_props.
  - unfold property_get.
    replace (declared name (disconnectedCallback (run Number_toString this evs)))
      with true.
    + now rewrite getter_disconnected, run_props.
    + symmetry. unfold declared in *. cbn [disconnectedCallback with_vdom accessors].
      now rewrite run_accessors.
Qed.

End Lifecycle.

(** ** The statements at concrete documents and instances *)

Lemma greet_element_constructed :
  constructor greet_class "X-GREET" [("label", "Hi")] [] one_paragraph
  = Normal greet_element.
Proof. reflexivity. Qed.

(** C1, where the code departs from it. [Greet] declares [label] as an
    observed attribute; registered without [propNames], the class lists no
    observed attribute at all and constructing [<x-greet label="Hi">]
    throws a [TypeError] instead of defining the accessor for [label]. *)
Theorem register_Greet_without_propNames :
  Component.observedAttributes Greet = Some ["label"]
  /\ static_observedAttributes
       (snd (register Greet (Some "x-greet") None None)) = None
  /\ propsToDefine (snd (register Greet (Some "x-greet") None None)) = None
  /\ (forall rendered,
         @constructor nat (snd (register Greet (Some "x-greet") None None))
           "X-GREET" [("label", "Hi")] [] rendered
         = Throw TypeError).
Proof.
  split; [reflexivity|].
  split; [|split; [reflexivity|]].
  - exact (proj1 (register_without_propNames nat Greet (Some "x-greet") None
                    "X-GREET" [("label", "Hi")] [] one_paragraph)).
  - intros rendered.
    exact (proj2 (register_without_propNames nat Greet (Some "x-greet") None
                    "X-GREET" [("label", "Hi")] [] rendered)).
Qed.

Lemma toVdom_text_and_other_nodes_witness :
  (nodeType (text_node "hello") = 3
   /\ @toVdom nat (text_node "hello") None = VString "hello")
  /\ (nodeType (comment_node "note") <> 3
      /\ nodeType (comment_node "note") <> 1
      /\ @toVdom nat (comment_node "note") None = VNull).
Proof.
  split.
  - split; [reflexivity|].
    apply (proj1 (toVdom_text_and_other_nodes nat (text_node "hello") None)).
    reflexivity.
  - assert (H3 : nodeType (comment_node "note") <> 3) by (simpl; lia).
    assert (H1 : nodeType (comment_node "note") <> 1) by (simpl; lia).
    split; [exact H3|]. split; [exact H1|].
    apply (proj2 (toVdom_text_and_other_nodes nat (comment_node "note") None)
                 H3 H1).
Defined.






Lemma attribute_change_before_render_witness :
  _vdom greet_element = None
  /\ attributeChangedCallback "label" VNull (VString "Hi") greet_element
     = greet_element.
Proof.
  assert (H : _vdom greet_element = None) by reflexivity.
  split; [exact H|].
  apply (attribute_change_before_render nat "label" VNull (VString "Hi")
           greet_element H).
Defined.


Lemma pendingProps_only_written_unrendered_witness :
  writes_while_rendered nat_toString greet_element
    [Connect VUndefined; PropertySet "label" (VString "Bye"); Disconnect]
  = true
  /\ declared "label" greet_element = true
  /\ _props (run nat_toString greet_element
               [Connect VUndefined; PropertySet "label" (VString "Bye");
                Disconnect])
     = _props greet_element
  /\ property_get "label"
       (disconnectedCallback
          (run nat_toString greet_element
               [Connect VUndefined; PropertySet "label" (VString "Bye");
                Disconnect]))
     = Some VUndefined.
Proof.
  assert (Hw : writes_while_rendered nat_toString greet_element
                 [Connect VUndefined; PropertySet "label" (VString "Bye");
                  Disconnect] = true) by reflexivity.
  assert (Hd : declared "label" greet_element = true) by reflexivity.
  split; [exact Hw|]. split; [exact Hd|].
  destruct (pendingProps_only_written_unrendered nat nat_toString
              greet_element) as (_ & _ & _ & _ & Hrun).
  exact (Hrun _ "label" Hw Hd).
Defined.



(** After the first render, a disconnect followed by a property write stores
    the written value in [_props], and it is that value a later read after
    a disconnect returns. *)
Lemma write_after_disconnect_reaches_pendingProps :
  ~ pendingProps_frozen nat_toString greet_element VUndefined
  /\ property_get "label" greet_element = Some VUndefined
  /\ property_get "label"
       (run nat_toString (connectedCallback VUndefined greet_element)
            [Disconnect; PropertySet "label" (VString "x");
             Connect VUndefined; Disconnect])
     = Some (VString "x").
Proof.
  split; [|split; reflexivity].
  intros H.
  specialize (H [Disconnect; PropertySet "label" (VString "x")]).
  vm_compute in H. discriminate.
Qed.

(** * Further properties of the code *)

(** ** [toCamelCase] *)

(** X1. A name without a hyphen is its own camelCase form. *)
Theorem toCamelCase_no_hyphen (str : string) :
  has_hyphen str = false -> toCamelCase str = str.
Proof.
  induction str as [|c rest IH]; simpl; auto.
  intros H. apply orb_false_iff in H as [Hc Hrest].
  rewrite Hc. now rewrite IH.
Qed.

Lemma toCamelCase_no_hyphen_witness :
  has_hyphen "label" = false /\ toCamelCase "label" = "label".
Proof.
  assert (H : has_hyphen "label" = false) by reflexivity.
  split; [exact H|]. apply (toCamelCase_no_hyphen "label" H).
Defined.

Lemma toCamelCase_prefix (a b : string) :
  has_hyphen a = false -> toCamelCase (a ++ b) = (a ++ toCamelCase b)%string.
Proof.
  induction a as [|c a IH]; simpl; auto.
  intros H. apply orb_false_iff in H as [Hc Ha].
  rewrite Hc. now rewrite IH.
Qed.

(** X2. In a kebab-case name each hyphen that is followed by a word
    character disappears and that character is put in upper case; what
    stands before the first hyphen is kept as it is, and what follows the
    pair is camel-cased in turn.  A hyphen followed by anything else, or by
    nothing, stays. *)
Theorem toCamelCase_segments (a b : string) (c : ascii) :
  has_hyphen a = false ->
  (is_word c = true ->
   toCamelCase (a ++ String "-" (String c b))
   = (a ++ String (char_toUpperCase c) (toCamelCase b))%string)
  /\ (is_word c = false ->
      toCamelCase (a ++ String "-" (String c b))
      = (a ++ String "-" (toCamelCase (String c b)))%string)
  /\ toCamelCase (a ++ "-") = (a ++ "-")%string.
Proof.
  intros Ha. rewrite !toCamelCase_prefix by exact Ha.
  split; [|split].
  - intros Hc. simpl. now rewrite Hc.
  - intros Hc. cbn [toCamelCase]. cbv [is_hyphen Ascii.eqb Bool.eqb].
    now rewrite Hc.
  - reflexivity.
Qed.

Lemma toCamelCase_segments_witness :
  has_hyphen "data" = false
  /\ is_word "i" = true
  /\ toCamelCase "data-item-id" = "dataItemId"
  /\ is_word "-" = false
  /\ toCamelCase "data--id" = "data-Id".
Proof.
  assert (Ha : has_hyphen "data" = false) by reflexivity.
  assert (Hi : is_word "i" = true) by reflexivity.
  assert (Hh : is_word "-" = false) by reflexivity.
  split; [exact Ha|]. split; [exact Hi|]. split; [|split; [exact Hh|]].
  - exact (proj1 (toCamelCase_segments "data" "tem-id" "i" Ha) Hi).
  - exact (proj1 (proj2 (toCamelCase_segments "data" "id" "-" Ha)) Hh).
Defined.

(** ** The projector *)

Section ProjectorMore.

Variable number : Type.

Lemma Arr_put_length {A} (a : Arr.t A) i v :
  length (Arr.put a i v) = Nat.max (length a) (S i).
Proof.
  revert a. induction i as [|i IH]; intros [|x a]; simpl.
  - reflexivity.
  - now rewrite Nat.max_0_r.
  - now rewrite IH.
  - now rewrite IH.
Qed.

Lemma child_loop_length (cn : list (value number * option string)) i p ch :
  length (snd (child_loop cn i p ch)) <= Nat.max (length ch) i.
Proof.
  revert p ch. induction i as [|i IH]; intros p ch.
  - simpl. lia.
  - rewrite child_loop_succ.
    destruct (nth_error cn i) as [[v nm]|];
      [destruct (truthy_name nm)|]; try (specialize (IH p ch); lia).
    + specialize (IH (Obj.set p (name_text nm)
                        (slot_forwarder (name_text nm) v)) ch). lia.
    + specialize (IH p (Arr.put ch i v)). rewrite Arr_put_length in IH. lia.
Qed.

Lemma child_loop_all_slotted (cn : list (value number * option string))
    i p ch :
  (forall j v nm, j < i -> nth_error cn j = Some (v, nm) ->
                  truthy_name nm = true) ->
  snd (child_loop cn i p ch) = ch.
Proof.
  revert p ch. induction i as [|i IH]; intros p ch Hall; auto.
  rewrite child_loop_succ.
  assert (Hlt : forall j v nm, j < i -> nth_error cn j = Some (v, nm) ->
                               truthy_name nm = true)
    by (intros j v nm Hj; apply Hall; lia).
  destruct (nth_error cn i) as [[v nm]|] eqn:E; [|now apply IH].
  rewrite (Hall i v nm) by (auto; lia). now apply IH.
Qed.

Lemma Arr_at_Some {A} (a : Arr.t A) j v :
  Arr.at_ a j = Some v -> nth_error a j = Some (Some v).
Proof.
  unfold Arr.at_. destruct (nth_error a j) as [[x|]|]; try discriminate.
  now intros [= ->].
Qed.

Lemma Arr_at_None {A} (a : Arr.t A) j :
  Arr.at_ a j = None -> j < length a -> nth_error a j = Some None.
Proof.
  unfold Arr.at_. intros H Hj. apply nth_error_Some in Hj.
  destruct (nth_error a j) as [[x|]|]; try discriminate; auto.
  now elim Hj.
Qed.


(** X4. The children array of a projected element is never longer than
    the child list.  An unslotted child is stored at its own index; the
    index of a slotted child that lies inside the array is a hole; and
    when every child is slotted the array is empty. *)
Theorem toVdom_children_holes (element : Node) :
  nodeType element = 1 ->
  exists children : Arr.t (value number),
    tree_children (toVdom element None) = VArray children
    /\ length children <= length (childNodes element)
    /\ (forall j c,
           nth_error (childNodes element) j = Some c ->
           truthy_name (slot c) = false ->
           nth_error children j = Some (Some (toVdom c None)))
    /\ (forall j c,
           nth_error (childNodes element) j = Some c ->
           truthy_name (slot c) = true ->
           j < length children ->
           nth_error children j = Some None)
    /\ ((forall c, In c (childNodes element) ->
                   truthy_name (slot c) = true) ->
        children = []).
Proof.
  destruct element as [ty nn d a cn]. cbn [nodeType childNodes]. intros ->.
  rewrite toVdom_element.
  cbn [tree_children h vnode_children truthy_type].
  set (projected := map (fun c => (@toVdom number c None, slot c)) cn).
  exists (snd (child_loop projected (length projected)
                          (attribute_loop a []) [])).
  assert (Hlen : length projected = length cn)
    by (unfold projected; apply length_map).
  assert (Hat : forall j c, nth_error cn j = Some c ->
            Arr.at_ (snd (child_loop projected (length projected)
                                     (attribute_loop a []) [])) j
            = if truthy_name (slot c) then None else Some (toVdom c None)).
  { intros j c Hj. rewrite child_loop_children.
    assert (Hlt : j < length projected).
    { rewrite Hlen. apply nth_error_Some. rewrite Hj. discriminate. }
    apply Nat.ltb_lt in Hlt. rewrite Hlt.
    unfold projected. rewrite (nth_error_projected _ _ _ _ Hj).
    now rewrite Arr_at_nil. }
  split; [reflexivity|]. split; [|split; [|split]].
  - pose proof (child_loop_length projected (length projected)
                  (attribute_loop a []) []) as H.
    simpl length in H. rewrite Hlen in *. lia.
  - intros j c Hj Hs. apply Arr_at_Some. rewrite (Hat j c Hj). now rewrite Hs.
  - intros j c Hj Hs Hlt. apply Arr_at_None; auto.
    rewrite (Hat j c Hj). now rewrite Hs.
  - intros Hall. apply child_loop_all_slotted.
    intros j v nm _ Hj.
    apply nth_error_projected_inv in Hj as (c & Hc & _ & ->).
    apply Hall. now apply nth_error_In with j.
Qed.

End ProjectorMore.


Lemma toVdom_children_holes_witness :
  nodeType outer_markup = 1
  /\ exists children : Arr.t (value nat),
       tree_children (toVdom outer_markup None) = VArray children
       /\ nth_error children 0 = Some None
       /\ nth_error children 1 = Some (Some (VString "tail")).
Proof.
  assert (H : nodeType outer_markup = 1) by reflexivity.
  split; [exact H|].
  destruct (toVdom_children_holes nat outer_markup H)
    as (children & Hc & _ & Hun & Hsl & _).
  exists children. split; [exact Hc|].
  assert (H1 : nth_error children 1 = Some (Some (VString "tail")))
    by (apply (Hun 1 (text_node "tail")); reflexivity).
  split; [|exact H1].
  apply (Hsl 0 (mkNode 1 "X-INNER" "" [("slot", "body")] [text_node "text"]));
    try reflexivity.
  assert (Hlt : 1 < length children)
    by (apply nth_error_Some; rewrite H1; discriminate).
  lia.
Defined.

(** ** Construction and histories *)

Section LifecycleMore.

Variable number : Type.
Variable Number_toString : number -> string.

Let element : Type := PreactElement number.

(** X5. Once the host has accepted the definition [register] hands to
    [customElements.define], an instance can be constructed exactly when
    [register] was given [propNames], be it an empty list.  The new
    instance is unattached: no stored tree, no pending props, no engine
    call made; it has an accessor pair for each given name, keeps the light
    DOM the host built it with, and its root is a shadow root of the
    requested mode when [options.shadow] asks for one, otherwise the
    element itself. *)
Theorem constructor_needs_propNames (valid_name : string -> bool)
    (defined defined' : list string) (Component : Component.t)
    (tagName : option string) (propNames : option (list string))
    (options : option Options) nn attrs cn
    (rendered : Rendered number) :
  customElements_define valid_name defined
    (register Component tagName propNames options) = Normal defined' ->
  (propNames = None <->
   constructor (snd (register Component tagName propNames options))
     nn attrs cn rendered = Throw TypeError)
  /\ (forall names,
         propNames = Some names ->
         exists this : element,
           constructor (snd (register Component tagName propNames options))
             nn attrs cn rendered = Normal this
           /\ accessors this = names
           /\ _vdom this = None /\ _props this = None /\ engine this = []
           /\ _vdomComponent this = Component
           /\ el_nodeName this = nn
           /\ el_attributes this = attrs
           /\ el_childNodes this = cn
           /\ _root this
              = match options with
                | Some {| shadow := Some mode |} => RootShadow mode
                | _ => RootSelf
                end).
Proof.
  intros _. split.
  - unfold constructor, propsToDefine, register. simpl.
    destruct propNames; split; intros H; try discriminate; reflexivity.
  - intros names ->. eexists. unfold constructor. simpl.
    repeat split; reflexivity.
Qed.

Lemma with_vdom_children_shadow (this : element) vd call mode :
  _root this = RootShadow mode ->
  el_childNodes (with_vdom this vd call) = el_childNodes this.
Proof. intros H. unfold with_vdom. cbn [el_childNodes]. now rewrite H. Qed.

Lemma attributeChangedCallback_children_shadow name oldValue newValue
    (this : element) mode :
  _root this = RootShadow mode ->
  el_childNodes (attributeChangedCallback name oldValue newValue this)
  = el_childNodes this.
Proof.
  intros H. unfold attributeChangedCallback.
  destruct (_vdom this) as [vd|]; auto.
  exact (with_vdom_children_shadow this _ _ mode H).
Qed.

Lemma setAttribute_children_shadow (this : element) name text mode :
  _root this = RootShadow mode ->
  el_childNodes (setAttribute this name text) = el_childNodes this.
Proof.
  intros H. unfold setAttribute.
  destruct (declared (ascii_lowercase name) this); auto.
  now rewrite attributeChangedCallback_children_shadow with (mode := mode).
Qed.

Lemma setter_children_shadow name v (this : element) mode :
  _root this = RootShadow mode ->
  el_childNodes (setter Number_toString name v this) = el_childNodes this.
Proof.
  intros H. unfold setter.
  set (this1 := match _vdom this with
                | Some _ => attributeChangedCallback name VNull v this
                | None =>
                    with_props this (Obj.set (spread (_props this)) name v)
                end).
  assert (H1 : el_childNodes this1 = el_childNodes this
               /\ _root this1 = RootShadow mode).
  { unfold this1. destruct (_vdom this); [|now auto].
    split; [now apply attributeChangedCallback_children_shadow with mode|].
    now rewrite (proj1 (proj2 (proj2 (proj2
          (attributeChangedCallback_frame number name VNull v this))))). }
  destruct H1 as [Hc Hr].
  destruct (reflected v); auto.
  now rewrite setAttribute_children_shadow with (mode := mode).
Qed.

Lemma step_frame (this : element) ev :
  _root (step Number_toString this ev) = _root this
  /\ _vdomComponent (step Number_toString this ev) = _vdomComponent this
  /\ el_nodeName (step Number_toString this ev) = el_nodeName this
  /\ (forall mode,
         _root this = RootShadow mode ->
         el_childNodes (step Number_toString this ev) = el_childNodes this).
Proof.
  destruct ev as [c | n o v | | n v]; cbn [step].
  - unfold connectedCallback. cbv zeta.
    split; [reflexivity|]. split; [reflexivity|]. split; [reflexivity|].
    intros mode H. exact (with_vdom_children_shadow this _ _ mode H).
  - destruct (attributeChangedCallback_frame number n o v this)
      as (_ & _ & _ & H4 & H5 & H6).
    repeat split; auto. intros mode H.
    now apply attributeChangedCallback_children_shadow with mode.
  - unfold disconnectedCallback.
    split; [reflexivity|]. split; [reflexivity|]. split; [reflexivity|].
    intros mode H. exact (with_vdom_children_shadow this _ _ mode H).
  - unfold property_set. destruct (declared n this); [|now auto].
    destruct (setter_frame number Number_toString n v this)
      as (_ & H4 & H5 & H6).
    repeat split; auto. intros mode H.
    now apply setter_children_shadow with mode.
Qed.

Lemma run_fields (this : element) (evs : list (event number)) :
  _root (run Number_toString this evs) = _root this
  /\ _vdomComponent (run Number_toString this evs) = _vdomComponent this
  /\ accessors (run Number_toString this evs) = accessors this
  /\ el_nodeName (run Number_toString this evs) = el_nodeName this
  /\ (forall mode,
         _root this = RootShadow mode ->
         el_childNodes (run Number_toString this evs) = el_childNodes this).
Proof.
  revert this. induction evs as [|ev evs IH]; intros this; [now auto|].
  unfold run in *. simpl.
  destruct (IH (step Number_toString this ev)) as (H1 & H2 & H3 & H4 & H5).
  destruct (step_frame this ev) as (S1 & S2 & S4 & S5).
  rewrite H1, H2, H3, H4, S1, S2, S4, step_accessors.
  repeat split; auto. intros mode Hm.
  rewrite (H5 mode) by (now rewrite S1). now apply S5 with mode.
Qed.


Lemma step_engine (this : element) ev :
  exists calls,
    engine (step Number_toString this ev) = engine this ++ calls
    /\ length calls <= 2
    /\ Forall (fun c => call_root c = _root this) calls.
Proof.
  assert (H0 : exists calls : list (EngineCall number),
             engine this = engine this ++ calls /\ length calls <= 2
             /\ Forall (fun c => call_root c = _root this) calls).
  { exists []. rewrite app_nil_r. simpl. auto. }
  assert (H1 : forall c, call_root c = _root this ->
             exists calls : list (EngineCall number),
               engine this ++ [c] = engine this ++ calls
               /\ length calls <= 2
               /\ Forall (fun c => call_root c = _root this) calls).
  { intros c Hc. exists [c]. simpl. auto. }
  destruct ev as [c | n o v | | n v]; cbn [step].
  - unfold connectedCallback. cbv zeta. cbn [with_vdom engine].
    apply H1. now destruct (hasAttribute this "hydrate").
  - rewrite attributeChangedCallback_engine.
    destruct (_vdom this) as [vd|]; auto.
  - unfold disconnectedCallback. cbn [with_vdom engine]. now apply H1.
  - unfold property_set. destruct (declared n this); auto.
    destruct (_vdom this) as [vd|] eqn:E.
    + destruct (setter_rendered number Number_toString n v this vd E)
        as (_ & He & _ & _).
      rewrite He, attributeChangedCallback_engine, E, <- app_assoc.
      eexists. split; [reflexivity|].
      destruct (reflected v && declared (ascii_lowercase n) this);
        simpl; split; auto.
    + rewrite (proj2 (proj2 (setter_unrendered number Number_toString
                               n v this E))). exact H0.
Qed.

(** X7. Engine calls are only ever added, at most two per event (two for
    a property write whose mirrored attribute the host observes), and each
    of them is given the instance's root as mount point. *)
Theorem run_engine (this : element) (evs : list (event number)) :
  exists calls,
    engine (run Number_toString this evs) = engine this ++ calls
    /\ length calls <= 2 * length evs
    /\ Forall (fun c => call_root c = _root this) calls.
Proof.
  revert this. induction evs as [|ev evs IH]; intros this.
  - exists []. simpl. rewrite app_nil_r. auto.
  - unfold run in *. simpl fold_left.
    destruct (IH (step Number_toString this ev)) as (c2 & E2 & L2 & F2).
    destruct (step_engine this ev) as (c1 & E1 & L1 & F1).
    exists (c1 ++ c2). rewrite E2, E1, <- app_assoc. split; auto.
    split; [rewrite length_app; simpl length; lia|].
    apply Forall_app. split; auto.
    destruct (step_frame this ev) as (S1 & _).
    rewrite S1 in F2. exact F2.
Qed.

Lemma step_no_lifecycle (this : element) ev :
  is_lifecycle ev = false ->
  (_vdom this = None ->
   _vdom (step Number_toString this ev) = None
   /\ engine (step Number_toString this ev) = engine this)
  /\ (_vdom this <> None -> _vdom (step Number_toString this ev) <> None).
Proof.
  destruct ev as [c | n o v | | n v]; simpl; try discriminate; intros _.
  - rewrite attributeChangedCallback_vdom, attributeChangedCallback_engine.
    split.
    + intros H. rewrite H. auto.
    + destruct (_vdom this); auto. discriminate.
  - unfold property_set. destruct (declared n this); [|now auto]. split.
    + intros H.
      destruct (setter_unrendered number Number_toString n v this H)
        as (Hv & _ & He). auto.
    + destruct (_vdom this) as [vd|] eqn:E; [|contradiction]. intros _.
      rewrite (proj1 (setter_rendered number Number_toString n v this vd E)).
      discriminate.
Qed.

Lemma run_no_lifecycle (this : element) evs :
  no_lifecycle evs = true ->
  (_vdom this = None ->
   _vdom (run Number_toString this evs) = None
   /\ engine (run Number_toString this evs) = engine this)
  /\ (_vdom this <> None -> _vdom (run Number_toString this evs) <> None).
Proof.
  revert this. induction evs as [|ev evs IH]; intros this H; [now auto|].
  simpl in H. apply andb_true_iff in H as [Hev Hrest].
  apply negb_true_iff in Hev.
  destruct (step_no_lifecycle this ev Hev) as [Hn Hs].
  destruct (IH (step Number_toString this ev) Hrest) as [IHn IHs].
  unfold run in *. simpl. split.
  - intros H0. destruct (Hn H0) as [Hv He].
    destruct (IHn Hv) as [Hv' He']. now rewrite He', He.
  - intros H0. apply IHs, Hs, H0.
Qed.

Lemma run_app (this : element) evs1 evs2 :
  run Number_toString this (evs1 ++ evs2)
  = run Number_toString (run Number_toString this evs1) evs2.
Proof. unfold run. apply fold_left_app. Qed.

(** X8. A tree is stored exactly from a connect to the next disconnect.
    Attribute changes and property writes never change whether one is
    stored, and while none is stored they make no engine call: before the
    first connection and after a disconnect nothing is rendered until the
    element is connected. *)
Theorem tree_stored_between_connect_and_disconnect (this : element)
    (evs1 evs2 : list (event number)) :
  no_lifecycle evs2 = true ->
  (forall context,
      _vdom (run Number_toString this (evs1 ++ Connect context :: evs2))
      <> None)
  /\ (_vdom (run Number_toString this (evs1 ++ Disconnect :: evs2)) = None
      /\ engine (run Number_toString this (evs1 ++ Disconnect :: evs2))
         = engine (run Number_toString this evs1)
           ++ [Render None (_root this)])
  /\ (_vdom this = None ->
      _vdom (run Number_toString this evs2) = None
      /\ engine (run Number_toString this evs2) = engine this).
Proof.
  intros H2. split; [|split].
  - intros context. rewrite run_app.
    change (run Number_toString (run Number_toString this evs1)
                (Connect context :: evs2))
      with (run Number_toString
              (connectedCallback context (run Number_toString this evs1))
              evs2).
    apply (run_no_lifecycle _ _ H2). simpl. discriminate.
  - rewrite run_app.
    change (run Number_toString (run Number_toString this evs1)
                (Disconnect :: evs2))
      with (run Number_toString
              (disconnectedCallback (run Number_toString this evs1)) evs2).
    destruct (proj1 (run_no_lifecycle
                       (disconnectedCallback (run Number_toString this evs1))
                       _ H2) eq_refl) as [Hv He].
    split; [exact Hv|]. rewrite He. simpl.
    now rewrite (proj1 (run_fields this evs1)).
  - apply (run_no_lifecycle _ _ H2).
Qed.

End LifecycleMore.

Lemma constructor_needs_propNames_witness :
  customElements_define has_hyphen []
    (register Greet (Some "x-greet") (Some ["label"])
              (Some {| shadow := Some Closed |}))
  = Normal ["x-greet"]
  /\ exists this : PreactElement nat,
       constructor (snd (register Greet (Some "x-greet") (Some ["label"])
                                  (Some {| shadow := Some Closed |})))
         "X-GREET" [("label", "Hi")] [] one_paragraph = Normal this
       /\ accessors this = ["label"]
       /\ _root this = RootShadow Closed.
Proof.
  assert (Hdef : customElements_define has_hyphen []
                   (register Greet (Some "x-greet") (Some ["label"])
                             (Some {| shadow := Some Closed |}))
                 = Normal ["x-greet"]) by reflexivity.
  split; [exact Hdef|].
  destruct (proj2 (constructor_needs_propNames nat has_hyphen [] _ Greet
                     (Some "x-greet") (Some ["label"])
                     (Some {| shadow := Some Closed |})
                     "X-GREET" [("label", "Hi")] [] one_paragraph Hdef)
                  ["label"] eq_refl)
    as (this & Hc & Ha & _ & _ & _ & _ & _ & _ & _ & Hr).
  exists this. auto.
Defined.


Lemma tree_stored_between_connect_and_disconnect_witness :
  no_lifecycle [PropertySet "label" (VString "Bye");
                AttributeChanged "label" (VString "Hi") (@VNull nat)] = true
  /\ _vdom (run nat_toString greet_element
              ([Connect VUndefined] ++
               Disconnect ::
               [PropertySet "label" (VString "Bye");
                AttributeChanged "label" (VString "Hi") VNull])) = None.
Proof.
  assert (H : no_lifecycle
                [PropertySet "label" (VString "Bye");
                 AttributeChanged "label" (VString "Hi") (@VNull nat)] = true)
    by reflexivity.
  split; [exact H|].
  exact (proj1 (proj1 (proj2
           (tree_stored_between_connect_and_disconnect nat nat_toString
              greet_element [Connect VUndefined] _ H)))).
Defined.

(** ** Reading and writing properties *)

Section AccessorsMore.

Variable number : Type.
Variable Number_toString : number -> string.

Let element : Type := PreactElement number.

Lemma setter_declared name v k (this : element) :
  declared k (setter Number_toString name v this) = declared k this.
Proof.
  unfold declared.
  now rewrite (proj1 (setter_frame number Number_toString name v this)).
Qed.

Lemma getter_unrendered k (this : element) :
  _vdom this = None -> getter k this = read (spread (_props this)) k.
Proof. intros H. unfold getter. rewrite H. now destruct (_props this). Qed.

(** What a key reads once a write made while a tree is stored is done: the
    text the host reported back for the mirrored attribute, else the value
    the write merged, else what it read before. *)
Lemma getter_after_write name v k (this : element) vd :
  _vdom this = Some vd ->
  getter k (setter Number_toString name v this)
  = if reflected v && declared (ascii_lowercase name) this
       && (String.eqb k (ascii_lowercase name)
           || String.eqb k (toCamelCase (ascii_lowercase name)))
    then VString (String_ Number_toString v)
    else if String.eqb k name || String.eqb k (toCamelCase name)
         then (if is_nullish v then VUndefined else v)
         else getter k this.
Proof.
  intros H. unfold getter.
  rewrite (proj1 (setter_rendered number Number_toString name v this vd H)), H.
  unfold read.
  assert (Hinner :
            Obj.get (vnode_props (cloneElement vd (prop_delta name v))) k
            = if String.eqb k name || String.eqb k (toCamelCase name)
              then Some (if is_nullish v then VUndefined else v)
              else Obj.get (vnode_props vd) k).
  { destruct (String.eqb k name) eqn:E1.
    { apply String.eqb_eq in E1. cbn [orb andb].
      apply cloneElement_delta_get. now left. }
    destruct (String.eqb k (toCamelCase name)) eqn:E2.
    { apply String.eqb_eq in E2. cbn [orb andb].
      apply cloneElement_delta_get. now right. }
    apply String.eqb_neq in E1. apply String.eqb_neq in E2. cbn [orb andb].
    now apply cloneElement_delta_other. }
  destruct (reflected v && declared (ascii_lowercase name) this);
    cbn [orb andb].
  - destruct (String.eqb k (ascii_lowercase name)) eqn:E1.
    { apply String.eqb_eq in E1. cbn [orb andb].
      rewrite cloneElement_delta_get by now left. reflexivity. }
    destruct (String.eqb k (toCamelCase (ascii_lowercase name))) eqn:E2.
    { apply String.eqb_eq in E2. cbn [orb andb].
      rewrite cloneElement_delta_get by now right. reflexivity. }
    apply String.eqb_neq in E1. apply String.eqb_neq in E2. cbn [orb andb].
    rewrite cloneElement_delta_other by assumption. rewrite Hinner.
    now destruct (String.eqb k name || String.eqb k (toCamelCase name)).
  - rewrite Hinner.
    now destruct (String.eqb k name || String.eqb k (toCamelCase name)).
Qed.



(** X11. Connecting carries the pending values into the stored tree: for
    a name the engine does not keep for itself, a property reads after the
    connection what [_props] holds for it, [undefined] when nothing was
    written, so a write made before the first connection is read back
    unchanged after it.  The one exception is the name [context], which
    reads the context the signal brought back. *)
Theorem connected_reads_pending name context (this : element) :
  engine_reserved name = false ->
  getter "context" (connectedCallback context this) = context
  /\ (name <> "context" ->
      getter name (connectedCallback context this)
      = read (spread (_props this)) name)
  /\ (name <> "context" -> _vdom this = None ->
      getter name (connectedCallback context this) = getter name this).
Proof.
  intros _.
  assert (Hc : getter "context" (connectedCallback context this) = context).
  { unfold getter, connectedCallback, with_vdom. cbn [_vdom h vnode_props].
    unfold read. now rewrite Obj_get_set_same. }
  assert (Hn : name <> "context" ->
               getter name (connectedCallback context this)
               = read (spread (_props this)) name).
  { intros Hne.
    unfold getter, connectedCallback, with_vdom. cbn [_vdom h vnode_props].
    unfold read. rewrite Obj_get_set_other; auto. }
  split; [exact Hc|]. split; [exact Hn|].
  intros Hne Hv. rewrite Hn by exact Hne. now rewrite getter_unrendered.
Qed.

(** X12. Of two attribute-change notifications for one name the later
    decides: the tree stored after both has the type and the children of,
    and reads under every key like, the tree stored after the later one
    alone; the engine is called once for each. *)
Theorem later_notification_wins name o1 v1 o2 v2 (this : element) vd :
  _vdom this = Some vd ->
  exists both alone,
    _vdom (attributeChangedCallback name o2 v2
             (attributeChangedCallback name o1 v1 this)) = Some both
    /\ _vdom (attributeChangedCallback name o2 v2 this) = Some alone
    /\ vnode_type both = vnode_type alone
    /\ vnode_children both = vnode_children alone
    /\ (forall k, Obj.get (vnode_props both) k = Obj.get (vnode_props alone) k)
    /\ length (engine (attributeChangedCallback name o2 v2
                         (attributeChangedCallback name o1 v1 this)))
       = length (engine this) + 2.
Proof.
  intros Hvd.
  unfold attributeChangedCallback. rewrite Hvd.
  cbn [_vdom with_vdom engine _root].
  eexists. eexists. split; [reflexivity|]. split; [reflexivity|].
  split; [reflexivity|]. split; [reflexivity|]. split.
  - intros k.
    destruct (String.eqb k name) eqn:E1.
    { apply String.eqb_eq in E1. subst k.
      now rewrite !cloneElement_delta_get by now left. }
    destruct (String.eqb k (toCamelCase name)) eqn:E2.
    { apply String.eqb_eq in E2. subst k.
      now rewrite !cloneElement_delta_get by now right. }
    apply String.eqb_neq in E1. apply String.eqb_neq in E2.
    now rewrite !cloneElement_delta_other.
  - simpl. rewrite !length_app. simpl. lia.
Qed.

End AccessorsMore.


Lemma connected_reads_pending_witness :
  engine_reserved "label" = false
  /\ "label" <> "context"
  /\ getter "label"
       (connectedCallback VUndefined
          (property_set nat_toString "label" (VNumber 5) greet_element))
     = VNumber 5.
Proof.
  assert (Hr : engine_reserved "label" = false) by reflexivity.
  assert (Hn : "label" <> "context") by discriminate.
  split; [exact Hr|]. split; [exact Hn|].
  exact (proj1 (proj2 (connected_reads_pending nat "label" VUndefined
                         (property_set nat_toString "label" (VNumber 5)
                                       greet_element) Hr)) Hn).
Defined.

Lemma later_notification_wins_witness :
  _vdom greet_rendered = Some greet_tree
  /\ exists both alone,
       _vdom (attributeChangedCallback "label" VNull (VString "b")
                (attributeChangedCallback "label" VNull (VString "a")
                   greet_rendered)) = Some both
       /\ _vdom (attributeChangedCallback "label" VNull (VString "b")
                   greet_rendered) = Some alone
       /\ Obj.get (vnode_props both) "label"
          = Obj.get (vnode_props alone) "label".
Proof.
  assert (H : _vdom greet_rendered = Some greet_tree) by reflexivity.
  split; [exact H|].
  destruct (later_notification_wins nat "label" VNull (VString "a") VNull
              (VString "b") greet_rendered greet_tree H)
    as (both & alone & H1 & H2 & _ & _ & Hk & _).
  exists both, alone. split; [exact H1|]. split; [exact H2|]. apply Hk.
Defined.


(** ** The Context Provider *)

Lemma Obj_get_remove {A} (o : Obj.t A) k k' :
  Obj.get (Obj.remove o k) k'
  = if String.eqb k k' then None else Obj.get o k'.
Proof.
  induction o as [|[k0 v0] o IH]; simpl.
  - now destruct (String.eqb k k').
  - destruct (String.eqb k0 k) eqn:E0.
    + apply String.eqb_eq in E0. subst k0. rewrite IH.
      now destruct (String.eqb k k').
    + simpl. rewrite IH. destruct (String.eqb k0 k') eqn:E1; auto.
      apply String.eqb_eq in E1. subst k0.
      rewrite String.eqb_sym in E0. now rewrite E0.
Qed.

Lemma Obj_get_absent {A} (o : Obj.t A) k :
  ~ In k (map fst o) -> Obj.get o k = None.
Proof.
  induction o as [|[k0 v0] o IH]; simpl; auto.
  intros H. destruct (String.eqb k0 k) eqn:E.
  - apply String.eqb_eq in E. subst k0. elim H. now left.
  - apply IH. intros Hin. apply H. now right.
Qed.

Lemma Obj_keys_remove {A} (o : Obj.t A) k x :
  In x (map fst (Obj.remove o k)) -> In x (map fst o).
Proof.
  induction o as [|[k0 v0] o IH]; simpl; auto.
  destruct (String.eqb k0 k); simpl; intuition.
Qed.

Lemma Obj_wf_remove {A} (o : Obj.t A) k : Obj.wf o -> Obj.wf (Obj.remove o k).
Proof.
  unfold Obj.wf. induction o as [|[k0 v0] o IH]; simpl; auto.
  intros H. inversion H as [|? ? Hnin Hnd]; subst.
  destruct (String.eqb k0 k); simpl; auto.
  constructor; auto. intros Hin. apply Hnin. now apply Obj_keys_remove in Hin.
Qed.

Lemma Obj_keys_set {A} (o : Obj.t A) k v x :
  In x (map fst (Obj.set o k v)) -> x = k \/ In x (map fst o).
Proof.
  induction o as [|[k0 v0] o IH]; simpl.
  - intuition.
  - destruct (String.eqb k0 k); simpl; intuition.
Qed.

Lemma Obj_wf_set {A} (o : Obj.t A) k v : Obj.wf o -> Obj.wf (Obj.set o k v).
Proof.
  unfold Obj.wf. induction o as [|[k0 v0] o IH]; simpl.
  - intros _. constructor; auto. constructor.
  - intros H. inversion H as [|? ? Hnin Hnd]; subst.
    destruct (String.eqb k0 k) eqn:E; simpl.
    + constructor; auto.
    + constructor; auto. intros Hin.
      apply Obj_keys_set in Hin as [-> | Hin]; auto.
      now rewrite String.eqb_refl in E.
Qed.

(** Merging an object over another: its own keys win, the others are
    kept. *)
Lemma Obj_get_assign {A} (o d : Obj.t A) k :
  Obj.wf d ->
  Obj.get (Obj.assign o d) k
  = match Obj.get d k with Some v => Some v | None => Obj.get o k end.
Proof.
  unfold Obj.assign, Obj.wf. revert o.
  induction d as [|[k0 v0] d IH]; intros o Hwf; simpl; auto.
  inversion Hwf as [|? ? Hnin Hnd]; subst.
  rewrite IH by exact Hnd.
  destruct (String.eqb k0 k) eqn:E.
  - apply String.eqb_eq in E. subst k0.
    rewrite (Obj_get_absent d k Hnin). apply Obj_get_set_same.
  - apply String.eqb_neq in E.
    destruct (Obj.get d k); auto using Obj_get_set_other.
Qed.

Lemma Obj_set_split {A} (o : Obj.t A) k v :
  Obj.wf o ->
  exists l1 l2,
    Obj.set o k v = l1 ++ (k, v) :: l2
    /\ forall n' v', In (n', v') l2 -> In (n', v') o /\ n' <> k.
Proof.
  unfold Obj.wf. induction o as [|[k0 v0] o IH]; simpl; intros Hwf.
  - exists [], []. split; [reflexivity|]. intros n' v' [].
  - inversion Hwf as [|? ? Hnin Hnd]; subst.
    destruct (String.eqb k0 k) eqn:E.
    + apply String.eqb_eq in E. subst k0. exists [], o.
      split; [reflexivity|].
      intros n' v' Hin. split; [now right|].
      intros ->. apply Hnin. apply in_map_iff. now exists (k, v').
    + destruct (IH Hnd) as (l1 & l2 & Heq & Hl2).
      exists ((k0, v0) :: l1), l2. rewrite Heq. split; [reflexivity|].
      intros n' v' Hin. destruct (Hl2 n' v' Hin). split; auto.
Qed.

Section ContextProviderMore.

Variable number : Type.
Variable Number_toString : number -> string.

Let element : Type := PreactElement number.

Lemma toVdom_this_tree (this : element) :
  exists t,
    @toVdom number (this_node this) (Some (TComponent (_vdomComponent this)))
    = VTree t
    /\ vnode_type t = TComponent (_vdomComponent this).
Proof.
  unfold this_node. rewrite toVdom_element. eexists. split; reflexivity.
Qed.

Lemma attributeChangedCallback_tree_shape name oldValue newValue
    (this : element) :
  tree_shape this ->
  tree_shape (attributeChangedCallback name oldValue newValue this).
Proof.
  unfold tree_shape. intros H.
  rewrite attributeChangedCallback_vdom.
  rewrite (proj1 (proj2 (proj2 (proj2 (proj2
             (attributeChangedCallback_frame number name oldValue newValue
                                             this)))))).
  destruct (_vdom this) as [vd|]; [|exact I].
  destruct vd as [ty p c]. exact H.
Qed.

Lemma setAttribute_tree_shape (this : element) name text :
  tree_shape this -> tree_shape (setAttribute this name text).
Proof.
  intros H. unfold setAttribute.
  destruct (declared (ascii_lowercase name) this); [|exact H].
  apply attributeChangedCallback_tree_shape. exact H.
Qed.

Lemma setter_tree_shape name v (this : element) :
  tree_shape this -> tree_shape (setter Number_toString name v this).
Proof.
  intros H. unfold setter.
  set (this1 := match _vdom this with
                | Some _ => attributeChangedCallback name VNull v this
                | None =>
                    with_props this (Obj.set (spread (_props this)) name v)
                end).
  assert (H1 : tree_shape this1).
  { unfold this1. destruct (_vdom this) eqn:E.
    - now apply attributeChangedCallback_tree_shape.
    - unfold tree_shape. cbn [_vdom with_props]. now rewrite E. }
  destruct (reflected v); [|exact H1].
  now apply setAttribute_tree_shape.
Qed.

Lemma step_tree_shape (this : element) ev :
  tree_shape this -> tree_shape (step Number_toString this ev).
Proof.
  intros H. destruct ev as [c | n o v | | n v]; cbn [step].
  - unfold tree_shape, connectedCallback, with_vdom.
    cbn [_vdom _vdomComponent h vnode_type vnode_children].
    split; [reflexivity|]. apply toVdom_this_tree.
  - now apply attributeChangedCallback_tree_shape.
  - exact I.
  - unfold property_set. destruct (declared n this); auto.
    now apply setter_tree_shape.
Qed.

Lemma run_tree_shape (this : element) evs :
  tree_shape this -> tree_shape (run Number_toString this evs).
Proof.
  revert this. induction evs as [|ev evs IH]; intros this H; auto.
  unfold run in *. simpl. apply IH. now apply step_tree_shape.
Qed.

(** X13. Whenever a tree is stored it is a Context Provider node around a
    tree of the registered component.  This holds after every history of an
    instance that starts without a tree and in which no attribute-change
    notification and no property write carries the name [children], in
    whatever letter case (the engine keeps the child of a node under that
    name, so a delta naming it replaces the child); and rendering the
    Context Provider on the stored tree then yields a node of that
    component. *)
Theorem stored_tree_wraps_component (this : element)
    (evs : list (event number)) :
  _vdom this = None ->
  (forall n o v, In (AttributeChanged n o v) evs ->
                 ascii_lowercase n <> "children") ->
  (forall n v, In (PropertySet n v) evs ->
               ascii_lowercase n <> "children") ->
  forall vd,
    _vdom (run Number_toString this evs) = Some vd ->
    vnode_type vd = TContextProvider
    /\ exists child,
         snd (ContextProvider vd) = Some child
         /\ vnode_type child = TComponent (_vdomComponent this).
Proof.
  intros H0 _ _ vd Hvd.
  assert (Hs : tree_shape this) by (unfold tree_shape; now rewrite H0).
  apply (run_tree_shape this evs) in Hs. unfold tree_shape in Hs.
  rewrite Hvd in Hs. destruct Hs as (Ht & child & Hc & Hty).
  split; [exact Ht|].
  unfold ContextProvider. rewrite Hc. simpl.
  eexists. split; [reflexivity|].
  destruct child. simpl in *. rewrite Hty.
  destruct (run_fields number Number_toString this evs) as (_ & Hcomp & _).
  now rewrite Hcomp.
Qed.

Lemma engine_reserved_children k :
  engine_reserved k = false -> k <> "children".
Proof. intros H ->. discriminate H. Qed.

(** What the Context Provider hands to the component right after a
    connection. *)
Lemma ContextProvider_connected (this : element) context :
  Obj.wf (spread (_props this)) ->
  exists vd child,
    _vdom (connectedCallback context this) = Some vd
    /\ ContextProvider vd = (context, Some child)
    /\ vnode_type child = TComponent (_vdomComponent this)
    /\ vnode_children child
       = tree_children
           (toVdom (this_node this)
                   (Some (TComponent (_vdomComponent this))))
    /\ (forall k,
           k <> "context" -> engine_reserved k = false ->
           Obj.get (vnode_props child) k
           = match Obj.get (spread (_props this)) k with
             | Some v => Some v
             | None =>
                 Obj.get
                   (tree_props
                      (toVdom (this_node this)
                              (Some (TComponent (_vdomComponent this))))) k
             end)
    /\ Obj.get (vnode_props child) "context"
       = Obj.get
           (tree_props
              (toVdom (this_node this)
                      (Some (TComponent (_vdomComponent this))))) "context".
Proof.
  intros Hwf.
  destruct (toVdom_this_tree this) as (t & Ht & Hty).
  unfold connectedCallback, with_vdom. cbn [_vdom].
  rewrite Ht. eexists. eexists. split; [reflexivity|].
  unfold ContextProvider. cbn [h vnode_props vnode_children].
  unfold read. rewrite Obj_get_set_same.
  split; [reflexivity|].
  assert (Hrest : Obj.wf (Obj.remove
                            (Obj.remove
                               (Obj.set (spread (_props this)) "context"
                                        context) "context") "children"))
    by (apply Obj_wf_remove, Obj_wf_remove, Obj_wf_set, Hwf).
  destruct t as [ty p c]. cbn [cloneElement vnode_type vnode_props
                               vnode_children tree_children tree_props] in *.
  split; [exact Hty|]. split; [reflexivity|]. split.
  - intros k Hk Hr. apply engine_reserved_children in Hr.
    rewrite Obj_get_assign by exact Hrest.
    rewrite !Obj_get_remove.
    assert (E1 : String.eqb "children" k = false)
      by (apply String.eqb_neq; auto).
    assert (E2 : String.eqb "context" k = false)
      by (apply String.eqb_neq; auto).
    rewrite E1, E2. rewrite Obj_get_set_other by auto. reflexivity.
  - rewrite Obj_get_assign by exact Hrest.
    now rewrite !Obj_get_remove.
Qed.


End ContextProviderMore.

Lemma stored_tree_wraps_component_witness :
  _vdom greet_element = None
  /\ exists vd child,
       _vdom (run nat_toString greet_element
                  [Connect VUndefined; PropertySet "label" (VString "Bye")])
       = Some vd
       /\ snd (ContextProvider vd) = Some child
       /\ vnode_type child = TComponent Greet.
Proof.
  assert (H : _vdom greet_element = None) by reflexivity.
  split; [exact H|].
  assert (Ha : forall n o v,
             In (AttributeChanged n o v)
                [Connect VUndefined;
                 @PropertySet nat "label" (VString "Bye")] ->
             ascii_lowercase n <> "children")
    by (intros n o v [E|[E|[]]]; discriminate E).
  assert (Hp : forall n v,
             In (PropertySet n v)
                [Connect VUndefined;
                 @PropertySet nat "label" (VString "Bye")] ->
             ascii_lowercase n <> "children").
  { intros n v [E|[E|[]]]; [discriminate E|].
    injection E as <- _. discriminate. }
  eexists.
  assert (Hv : _vdom (run nat_toString greet_element
                          [Connect VUndefined;
                           PropertySet "label" (VString "Bye")])
               = Some (cloneElement
                         (cloneElement greet_tree
                            (prop_delta "label" (VString "Bye")))
                         (prop_delta "label" (VString "Bye"))))
    by reflexivity.
  destruct (stored_tree_wraps_component nat nat_toString greet_element _ H
              Ha Hp _ Hv) as (_ & child & Hc & Hty).
  exists child. split; [exact Hv|]. split; [exact Hc|exact Hty].
Defined.


Section PendingWrites.

Variable number : Type.
Variable Number_toString : number -> string.

Let element : Type := PreactElement number.

(** The projected prop under the camelCase form of an attribute just set,
    when nothing else writes that key. *)
Lemma mirrored_attribute_projected (nn : string) (attrs : Obj.t string)
    (cn : list Node) name text (nodeName : option vtype) :
  Obj.wf attrs ->
  name <> "slot" ->
  (forall n' v', In (n', v') attrs -> n' <> name -> n' <> "slot" ->
                 n' <> toCamelCase name
                 /\ toCamelCase n' <> toCamelCase name) ->
  (forall c s, In c cn -> slot c = Some s -> s <> "" ->
               s <> toCamelCase name) ->
  Obj.get (tree_props
             (@toVdom number (mkNode 1 nn "" (Obj.set attrs name text) cn)
                      nodeName))
          (toCamelCase name)
  = Some (VString text).
Proof.
  intros Hwf Hslot Hattrs Hkids.
  rewrite toVdom_element. cbn [tree_props h vnode_props].
  rewrite child_loop_untouched.
  - destruct (Obj_set_split attrs name text Hwf) as (l1 & l2 & -> & Hl2).
    apply attribute_loop_last; auto.
    intros n' v' Hin Hn'. destruct (Hl2 n' v' Hin) as [Hin' Hne].
    now apply (Hattrs n' v').
  - intros j v' nm _ Hj Ht.
    apply nth_error_projected_inv in Hj as (c & Hc & _ & ->).
    apply truthy_name_spec in Ht as (s & Hs & Hne).
    rewrite Hs. simpl. apply (Hkids c s); auto.
    now apply nth_error_In with j.
Qed.

(** A write made while no tree is stored renders nothing, so the children
    of the element stay, whatever the root. *)
Lemma setter_unrendered_children name v (this : element) :
  _vdom this = None ->
  el_childNodes (setter Number_toString name v this) = el_childNodes this.
Proof.
  intros H. unfold setter. rewrite H.
  destruct (reflected v); [|reflexivity].
  unfold setAttribute.
  destruct (declared (ascii_lowercase name)
              (with_props this (Obj.set (spread (_props this)) name v)));
    [|reflexivity].
  unfold attributeChangedCallback. cbn [_vdom with_attributes with_props].
  now rewrite H.
Qed.


End PendingWrites.


(** ** The Slot Forwarder and the context-request signal *)

Section SlotMore.

Variable number : Type.

Lemma remove_absent (reg : Registry number) e (l : Listener number) :
  (forall x, In x reg -> listener_owner (snd x) <> listener_owner l) ->
  removeEventListener reg e (Some l) = reg.
Proof.
  intros H. simpl. induction reg as [|x reg IH]; simpl; auto.
  assert (Hx : same_listener (snd x) l = false).
  { unfold same_listener. apply Nat.eqb_neq. apply H. now left. }
  rewrite Hx, andb_false_r. simpl. rewrite IH; auto.
  intros y Hy. apply H. now right.
Qed.

Lemma add_absent (reg : Registry number) e (l : Listener number) :
  (forall x, In x reg -> listener_owner (snd x) <> listener_owner l) ->
  addEventListener reg e l = reg ++ [(e, l)].
Proof.
  intros H. unfold addEventListener.
  assert (Hr : registered reg e l = false).
  { unfold registered. induction reg as [|x reg IH]; simpl; auto.
    assert (Hx : same_listener (snd x) l = false).
    { unfold same_listener. apply Nat.eqb_neq. apply H. now left. }
    rewrite Hx, andb_false_r. simpl. apply IH.
    intros y Hy. apply H. now right. }
  now rewrite Hr.
Qed.

Lemma remove_own (reg : Registry number) e x (l : Listener number) :
  (forall y, In y reg -> listener_owner (snd y) <> listener_owner l) ->
  removeEventListener (reg ++ [(e, l)]) x (Some l)
  = if Nat.eqb e x then reg else reg ++ [(e, l)].
Proof.
  intros H. pose proof (remove_absent reg x l H) as Hreg.
  simpl in *. rewrite filter_app, Hreg. simpl.
  unfold same_listener. rewrite Nat.eqb_refl, andb_true_r.
  destruct (Nat.eqb e x); simpl; auto. apply app_nil_r.
Qed.

(** What holds of a Slot instance and the registry from the first attach
    on. *)
Lemma Slot_refs_invariant calls id e c1 (reg : Registry number) :
  (forall x, In x reg -> listener_owner (snd x) <> id) ->
  forall (this : SlotInstance number) r,
    slot_id this = id ->
    ref this <> None ->
    _listener this = Some (mkListener id c1) ->
    r = reg \/ r = reg ++ [(e, mkListener id c1)] ->
    exists this' reg',
      Slot_refs calls this r = Normal (this', reg')
      /\ slot_id this' = id
      /\ _listener this' = Some (mkListener id c1)
      /\ (reg' = reg \/ reg' = reg ++ [(e, mkListener id c1)])
      /\ (r = reg -> reg' = reg).
Proof.
  intros Hreg. induction calls as [|[c r0] calls IH]; intros this r Hid Href Hl Hr.
  - exists this, r. simpl. auto.
  - simpl. destruct r0 as [e'|]; simpl.
    + rewrite Hl.
      destruct (IH (mkSlot (slot_id this) (Some e') (Some (mkListener id c1)))
                   r Hid ltac:(discriminate) eq_refl Hr)
        as (this' & reg' & H1 & H2 & H3 & H4 & H5).
      exists this', reg'. auto.
    + destruct (ref this) as [x|] eqn:Ex; [|contradiction].
      rewrite Hl.
      assert (Hown : forall y, In y reg ->
                listener_owner (snd y)
                <> listener_owner (mkListener id c1)) by exact Hreg.
      destruct Hr as [-> | ->].
      * rewrite (remove_absent reg x _ Hown).
        destruct (IH this reg Hid ltac:(rewrite Ex; discriminate) Hl
                     (or_introl eq_refl))
          as (this' & reg' & H1 & H2 & H3 & H4 & H5).
        exists this', reg'. auto.
      * rewrite (remove_own reg e x _ Hown).
        destruct (Nat.eqb e x).
        -- destruct (IH this reg Hid ltac:(rewrite Ex; discriminate) Hl
                        (or_introl eq_refl))
             as (this' & reg' & H1 & H2 & H3 & H4 & H5).
           exists this', reg'. repeat split; auto.
        -- destruct (IH this _ Hid ltac:(rewrite Ex; discriminate) Hl
                        (or_intror eq_refl))
             as (this' & reg' & H1 & H2 & H3 & H4 & H5).
           exists this', reg'. repeat split; auto.
Qed.

(** X16. The first [ref] call of a Slot with an element adds one listener
    to that element, carrying the context of that render; called with
    [null] before any element, [ref] throws.  Whatever [ref] calls follow
    the first attach, with whatever contexts, none throws, the instance
    keeps that one listener with the context of the first render, and the
    document holds the listener on the first element or nowhere. *)
Theorem Slot_ref_attaches_once (this : SlotInstance number)
    (reg : Registry number) c1 e (calls : list (value number * option nat)) :
  ref this = None ->
  _listener this = None ->
  (forall x, In x reg -> listener_owner (snd x) <> slot_id this) ->
  (forall c, Slot_ref c None this reg = Throw TypeError)
  /\ Slot_ref c1 (Some e) this reg
     = Normal (mkSlot (slot_id this) (Some e)
                      (Some (mkListener (slot_id this) c1)),
               reg ++ [(e, mkListener (slot_id this) c1)])
  /\ exists this' reg',
       Slot_refs ((c1, Some e) :: calls) this reg = Normal (this', reg')
       /\ _listener this' = Some (mkListener (slot_id this) c1)
       /\ (reg' = reg \/ reg' = reg ++ [(e, mkListener (slot_id this) c1)]).
Proof.
  intros Href Hl Hreg.
  assert (H1 : Slot_ref c1 (Some e) this reg
               = Normal (mkSlot (slot_id this) (Some e)
                                (Some (mkListener (slot_id this) c1)),
                         reg ++ [(e, mkListener (slot_id this) c1)])).
  { unfold Slot_ref. rewrite Hl. now rewrite add_absent. }
  split; [|split; [exact H1|]].
  - intros c. unfold Slot_ref. now rewrite Href.
  - cbn [Slot_refs]. rewrite H1.
    destruct (Slot_refs_invariant calls (slot_id this) e c1 reg Hreg
                (mkSlot (slot_id this) (Some e)
                        (Some (mkListener (slot_id this) c1)))
                (reg ++ [(e, mkListener (slot_id this) c1)])
                eq_refl ltac:(discriminate) eq_refl (or_intror eq_refl))
      as (this' & reg' & E & _ & Hl' & Hr' & _).
    exists this', reg'. auto.
Qed.

(** Calls with the element the Slot is bound to change nothing once the
    listener exists. *)
Lemma Slot_refs_same_element (cs : list (value number)) id e
    (l : Listener number) (r : Registry number) rest :
  Slot_refs (map (fun c => (c, Some e)) cs ++ rest)
            (mkSlot id (Some e) (Some l)) r
  = Slot_refs rest (mkSlot id (Some e) (Some l)) r.
Proof.
  induction cs as [|c cs IH]; [reflexivity|].
  cbn [map app Slot_refs]. unfold Slot_ref at 1. cbn [_listener slot_id].
  exact IH.
Qed.

(** X17. When [ref] is called with [null] while the Slot is still bound to
    the element of its first attach, that is, when every call since the
    first attach was made with that same element, the listener is removed
    for good: whatever [ref] calls follow, also with an element, the
    document is left with the listeners it had before the Slot attached,
    while the instance still holds its first listener.  When the Slot was
    bound to another element in between, the [null] call removes nothing
    and the listener stays on the first element. *)
Theorem Slot_listener_not_reattached (this : SlotInstance number)
    (reg : Registry number) c1 c2 e (same : list (value number))
    (calls : list (value number * option nat)) :
  ref this = None ->
  _listener this = None ->
  (forall x, In x reg -> listener_owner (snd x) <> slot_id this) ->
  (exists this',
      Slot_refs ((c1, Some e)
                 :: map (fun c => (c, Some e)) same ++ (c2, None) :: calls)
                this reg
      = Normal (this', reg)
      /\ _listener this' = Some (mkListener (slot_id this) c1))
  /\ (forall e' c3,
         e' <> e ->
         Slot_refs [(c1, Some e); (c3, Some e'); (c2, None)] this reg
         = Normal (mkSlot (slot_id this) (Some e')
                          (Some (mkListener (slot_id this) c1)),
                   reg ++ [(e, mkListener (slot_id this) c1)])).
Proof.
  intros Href Hl Hreg.
  assert (Hown : forall y, In y reg ->
            listener_owner (snd y)
            <> listener_owner (mkListener (slot_id this) c1)) by exact Hreg.
  split.
  - cbn [Slot_refs]. unfold Slot_ref at 1.
    rewrite Hl, add_absent by exact Hown.
    rewrite Slot_refs_same_element.
    cbn [Slot_refs]. unfold Slot_ref at 1. cbn [ref _listener].
    rewrite (remove_own reg e e _ Hown), Nat.eqb_refl.
    destruct (Slot_refs_invariant calls (slot_id this) e c1 reg Hreg
                (mkSlot (slot_id this) (Some e)
                        (Some (mkListener (slot_id this) c1)))
                reg eq_refl ltac:(discriminate) eq_refl (or_introl eq_refl))
      as (this' & reg' & E & _ & Hl' & _ & Hr').
    exists this'. rewrite E, (Hr' eq_refl). auto.
  - intros e' c3 Hne.
    cbn [Slot_refs]. unfold Slot_ref at 1.
    rewrite Hl, add_absent by exact Hown.
    unfold Slot_ref at 1. cbn [ref _listener slot_id].
    unfold Slot_ref at 1. cbn [ref _listener slot_id].
    rewrite (remove_own reg e e' _ Hown).
    assert (E : Nat.eqb e e' = false) by (apply Nat.eqb_neq; auto).
    now rewrite E.
Qed.

End SlotMore.

Lemma Slot_ref_attaches_once_witness :
  ref fresh_slot = None /\ _listener fresh_slot = None
  /\ Slot_ref (VString "theme") (Some 3) fresh_slot no_listeners
     = Normal (mkSlot 7 (Some 3) (Some (mkListener 7 (VString "theme"))),
               [(3, mkListener 7 (VString "theme"))]).
Proof.
  assert (H1 : ref fresh_slot = None) by reflexivity.
  assert (H2 : _listener fresh_slot = None) by reflexivity.
  split; [exact H1|]. split; [exact H2|].
  assert (H3 : forall x, In x no_listeners ->
                         listener_owner (snd x) <> slot_id fresh_slot)
    by (intros x []).
  exact (proj1 (proj2 (Slot_ref_attaches_once nat fresh_slot no_listeners
                         (VString "theme") 3 [] H1 H2 H3))).
Defined.

Lemma Slot_listener_not_reattached_witness :
  ref fresh_slot = None /\ _listener fresh_slot = None
  /\ (exists this',
        Slot_refs [(VString "theme", Some 3); (VString "light", Some 3);
                   (VString "theme", None); (VString "dark", Some 3)]
                  fresh_slot no_listeners
        = Normal (this', no_listeners)
        /\ _listener this' = Some (mkListener 7 (VString "theme")))
  /\ 4 <> 3
  /\ Slot_refs [(VString "theme", Some 3); (VString "light", Some 4);
                (VString "theme", None)] fresh_slot no_listeners
     = Normal (mkSlot 7 (Some 4) (Some (mkListener 7 (VString "theme"))),
               [(3, mkListener 7 (VString "theme"))]).
Proof.
  assert (H1 : ref fresh_slot = None) by reflexivity.
  assert (H2 : _listener fresh_slot = None) by reflexivity.
  split; [exact H1|]. split; [exact H2|].
  assert (H3 : forall x, In x no_listeners ->
                         listener_owner (snd x) <> slot_id fresh_slot)
    by (intros x []).
  assert (H4 : 4 <> 3) by discriminate.
  split; [|split; [exact H4|]].
  - exact (proj1 (Slot_listener_not_reattached nat fresh_slot no_listeners
                    (VString "theme") (VString "theme") 3 [VString "light"]
                    [(VString "dark", Some 3)] H1 H2 H3)).
  - exact (proj2 (Slot_listener_not_reattached nat fresh_slot no_listeners
                    (VString "theme") (VString "theme") 3 []
                    [] H1 H2 H3) 4 (VString "light") H4).
Defined.

Section SignalMore.

Variable number : Type.

Lemma listeners_at_app (r1 r2 : Registry number) e ev :
  listeners_at (r1 ++ r2) e ev = listeners_at r2 e (listeners_at r1 e ev).
Proof. unfold listeners_at. apply fold_left_app. Qed.

Lemma listeners_at_none (reg : Registry number) e ev :
  (forall l, ~ In (e, l) reg) -> listeners_at reg e ev = ev.
Proof.
  unfold listeners_at. revert ev.
  induction reg as [|[x l] reg IH]; intros ev H; simpl; auto.
  destruct (Nat.eqb x e) eqn:E.
  - apply Nat.eqb_eq in E. subst x. elim (H l). now left.
  - apply IH. intros l' Hin. apply (H l'). now right.
Qed.

Lemma listeners_at_last (r1 r2 : Registry number) e l ev :
  (forall l', ~ In (e, l') r2) ->
  listeners_at (r1 ++ (e, l) :: r2) e ev
  = listener_call l (listeners_at r1 e ev).
Proof.
  intros H. rewrite listeners_at_app.
  change ((e, l) :: r2) with ([(e, l)] ++ r2).
  rewrite listeners_at_app, (listeners_at_none r2) by exact H.
  unfold listeners_at at 1. simpl. now rewrite Nat.eqb_refl.
Qed.

Lemma dispatchEvent_stopped (reg : Registry number) path ev :
  stopped ev = true -> dispatchEvent reg path ev = ev.
Proof.
  unfold dispatchEvent. revert ev.
  induction path as [|x path IH]; intros ev H; simpl; auto.
  rewrite H. now apply IH.
Qed.

Lemma dispatchEvent_skip (reg : Registry number) l1 rest ev :
  (forall x l, In x l1 -> ~ In (x, l) reg) ->
  dispatchEvent reg (l1 ++ rest) ev = dispatchEvent reg rest ev.
Proof.
  unfold dispatchEvent. revert ev.
  induction l1 as [|x l1 IH]; intros ev H; simpl; auto.
  rewrite listeners_at_none by (intros l; apply H; now left).
  destruct (stopped ev); apply IH; intros y l Hy; apply H; now right.
Qed.

Lemma dispatchEvent_answered (reg r1 r2 : Registry number) l1 l2 e l :
  (forall x l', In x l1 -> ~ In (x, l') reg) ->
  reg = r1 ++ (e, l) :: r2 ->
  (forall l', ~ In (e, l') r2) ->
  dispatchEvent reg (l1 ++ e :: l2) (mkEvent [] false)
  = listener_call l (listeners_at r1 e (mkEvent [] false)).
Proof.
  intros H1 Hreg H2. rewrite dispatchEvent_skip by exact H1. subst reg.
  change (dispatchEvent (r1 ++ (e, l) :: r2) (e :: l2) (mkEvent [] false))
    with (dispatchEvent (r1 ++ (e, l) :: r2) l2
            (listeners_at (r1 ++ (e, l) :: r2) e (mkEvent [] false))).
  rewrite listeners_at_last by exact H2.
  now apply dispatchEvent_stopped.
Qed.

Lemma dispatchEvent_unanswered (reg : Registry number) path ev :
  (forall x l, In x path -> ~ In (x, l) reg) ->
  dispatchEvent reg path ev = ev.
Proof.
  intros H. rewrite <- (app_nil_r path).
  now rewrite dispatchEvent_skip.
Qed.

(** X18. The context an element receives on connection is that of the
    nearest element on the signal's path that has a [_preact] listener,
    the target itself included: the listener added last to that element
    decides, propagation stops there, and the elements further up are not
    asked.  With no listener anywhere on the path the context is
    [undefined]. *)
Theorem nearest_listener_answers (reg : Registry number)
    (this : PreactElement number) :
  (forall r1 r2 l1 l2 e l,
      (forall x l', In x l1 -> ~ In (x, l') reg) ->
      reg = r1 ++ (e, l) :: r2 ->
      (forall l', ~ In (e, l') r2) ->
      request_context reg (l1 ++ e :: l2) = listener_context l
      /\ stopped (dispatchEvent reg (l1 ++ e :: l2) (mkEvent [] false))
         = true
      /\ connect_in reg (l1 ++ e :: l2) this
         = connectedCallback (listener_context l) this)
  /\ (forall path,
         (forall x l, In x path -> ~ In (x, l) reg) ->
         request_context reg path = VUndefined
         /\ connect_in reg path this = connectedCallback VUndefined this).
Proof.
  split.
  - intros r1 r2 l1 l2 e l H1 Hreg H2.
    assert (Hc : request_context reg (l1 ++ e :: l2) = listener_context l).
    { unfold request_context.
      rewrite (dispatchEvent_answered reg r1 r2 l1 l2 e l H1 Hreg H2).
      unfold listener_call, read. cbn [detail].
      now rewrite Obj_get_set_same. }
    split; [exact Hc|]. split.
    + now rewrite (dispatchEvent_answered reg r1 r2 l1 l2 e l H1 Hreg H2).
    + unfold connect_in. now rewrite Hc.
  - intros path H.
    assert (Hc : request_context reg path = @VUndefined number).
    { unfold request_context. now rewrite dispatchEvent_unanswered. }
    split; [exact Hc|]. unfold connect_in. now rewrite Hc.
Qed.

Lemma add_no_entry (reg : Registry number) e (l : Listener number) :
  (forall l', ~ In (e, l') reg) -> addEventListener reg e l = reg ++ [(e, l)].
Proof.
  intros H. unfold addEventListener.
  assert (Hr : registered reg e l = false).
  { unfold registered. induction reg as [|[x l0] reg IH]; simpl; auto.
    destruct (Nat.eqb x e) eqn:E.
    - apply Nat.eqb_eq in E. subst x. elim (H l0). now left.
    - simpl. apply IH. intros l' Hin. apply (H l'). now right. }
  now rewrite Hr.
Qed.

Lemma remove_no_entry (reg : Registry number) e (l : Listener number) :
  (forall l', ~ In (e, l') reg) ->
  removeEventListener (reg ++ [(e, l)]) e (Some l) = reg.
Proof.
  intros H. simpl. rewrite filter_app. simpl.
  unfold same_listener. rewrite !Nat.eqb_refl. simpl. rewrite app_nil_r.
  induction reg as [|[x l0] reg IH]; simpl; auto.
  destruct (Nat.eqb x e) eqn:E.
  - apply Nat.eqb_eq in E. subst x. elim (H l0). now left.
  - simpl. rewrite IH; auto. intros l' Hin. apply (H l'). now right.
Qed.

(** X19. The protocol end to end, in a document with no listener on the
    path.  After a Slot attached to the element [e] of the path, an element
    connecting below receives the context of the render that attached.
    After that Slot's [ref] was called with [null] and then with [e]
    again, the element receives [undefined]: the later render's context is
    not forwarded. *)
Theorem Slot_forwards_first_context (this : SlotInstance number)
    (reg : Registry number) c1 c2 c3 e l1 l2 :
  ref this = None ->
  _listener this = None ->
  ~ In e l1 ->
  (forall x l, In x (l1 ++ e :: l2) -> ~ In (x, l) reg) ->
  (exists this1 reg1,
      Slot_ref c1 (Some e) this reg = Normal (this1, reg1)
      /\ request_context reg1 (l1 ++ e :: l2) = c1)
  /\ (exists this3 reg3,
         Slot_refs [(c1, Some e); (c2, None); (c3, Some e)] this reg
         = Normal (this3, reg3)
         /\ request_context reg3 (l1 ++ e :: l2) = VUndefined).
Proof.
  intros Href Hl Hnotin Hpath.
  assert (He : forall l', ~ In (e, l') reg).
  { intros l'. apply Hpath. apply in_or_app. right. now left. }
  split.
  - eexists. eexists. unfold Slot_ref. rewrite Hl, add_no_entry by exact He.
    split; [reflexivity|].
    unfold request_context.
    rewrite (dispatchEvent_answered _ reg [] l1 l2 e
               (mkListener (slot_id this) c1)).
    + unfold listener_call, read. cbn [detail listener_context].
      now rewrite Obj_get_set_same.
    + intros x l' Hx Hin. apply in_app_or in Hin as [Hin|[Hin|[]]].
      * apply (Hpath x l'); auto. apply in_or_app. now left.
      * injection Hin as -> _. contradiction.
    + reflexivity.
    + intros l' [].
  - eexists. eexists. cbn [Slot_refs]. unfold Slot_ref at 1.
    rewrite Hl, add_no_entry by exact He.
    unfold Slot_ref at 1. cbn [ref _listener].
    rewrite remove_no_entry by exact He.
    unfold Slot_ref at 1. cbn [ref _listener].
    split; [reflexivity|].
    unfold request_context. now rewrite dispatchEvent_unanswered.
Qed.

End SignalMore.

Lemma nearest_listener_answers_witness :
  request_context [(3, mkListener 7 (VString "theme"));
                   (9, mkListener 8 (VString "outer"))]
                  ([1; 2] ++ 3 :: [9])
  = (VString "theme" : value nat).
Proof.
  refine (proj1 (proj1 (nearest_listener_answers nat
                          [(3, mkListener 7 (VString "theme"));
                           (9, mkListener 8 (VString "outer"))]
                          greet_element)
                       [] [(9, mkListener 8 (VString "outer"))]
                       [1; 2] [9] 3 (mkListener 7 (VString "theme"))
                       _ eq_refl _)).
  - intros x l' [<-|[<-|[]]] [H|[H|[]]]; discriminate.
  - intros l' [H|[]]; discriminate.
Defined.

Lemma Slot_forwards_first_context_witness :
  ref fresh_slot = None /\ _listener fresh_slot = None /\ ~ In 3 [1; 2]
  /\ exists this1 reg1,
       Slot_ref (VString "theme") (Some 3) fresh_slot no_listeners
       = Normal (this1, reg1)
       /\ request_context reg1 ([1; 2] ++ 3 :: [9]) = VString "theme".
Proof.
  assert (H1 : ref fresh_slot = None) by reflexivity.
  assert (H2 : _listener fresh_slot = None) by reflexivity.
  assert (H3 : ~ In 3 [1; 2]) by (intros [H|[H|[]]]; discriminate).
  split; [exact H1|]. split; [exact H2|]. split; [exact H3|].
  assert (H4 : forall x (l : Listener nat),
             In x ([1; 2] ++ 3 :: [9]) -> ~ In (x, l) no_listeners)
    by (intros x l _ []).
  exact (proj1 (Slot_forwards_first_context nat fresh_slot no_listeners
                  (VString "theme") (VString "theme") (VString "dark")
                  3 [1; 2] [9] H1 H2 H3 H4)).
Defined.

(** ** Hydration and attribute mirroring *)

Section EngineMore.

Variable number : Type.
Variable Number_toString : number -> string.

Let element : Type := PreactElement number.

(** X20. Hydration is chosen at connection only, and exactly when the
    element has a [hydrate] attribute, whatever its value: the connection
    hands the tree it stores to [hydrate] in that case and to [render]
    otherwise.  Attribute changes, property writes and disconnects never
    add a [hydrate] call. *)
Theorem hydrate_only_on_connect (this : element) :
  (forall context,
      exists vd,
        _vdom (connectedCallback context this) = Some vd
        /\ engine (connectedCallback context this)
           = engine this
             ++ [if hasAttribute this "hydrate"
                 then Hydrate vd (_root this)
                 else Render (Some vd) (_root this)])
  /\ (forall ev,
         (forall context, ev <> Connect context) ->
         forall t r,
           In (Hydrate t r) (engine (step Number_toString this ev)) ->
           In (Hydrate t r) (engine this)).
Proof.
  split.
  - intros context. eexists. split; [reflexivity|].
    unfold connectedCallback, with_vdom. cbn [engine].
    now destruct (hasAttribute this "hydrate").
  - intros ev Hev t r.
    assert (Hadd : forall (l : list (EngineCall number)) tree root,
              In (Hydrate t r) (l ++ [Render tree root]) ->
              In (Hydrate t r) l).
    { intros l tree root Hin.
      apply in_app_or in Hin as [Hin|[Hin|[]]]; [exact Hin|discriminate]. }
    assert (Hacc : forall n o v (x : element),
              In (Hydrate t r) (engine (attributeChangedCallback n o v x)) ->
              In (Hydrate t r) (engine x)).
    { intros n o v x. rewrite attributeChangedCallback_engine.
      destruct (_vdom x); auto. apply Hadd. }
    assert (Hset : forall (x : element) n text,
              In (Hydrate t r) (engine (setAttribute x n text)) ->
              In (Hydrate t r) (engine x)).
    { intros x n text. rewrite setAttribute_engine.
      destruct (_vdom x); auto.
      destruct (declared (ascii_lowercase n) x); auto. apply Hadd. }
    destruct ev as [c | n o v | | n v]; cbn [step].
    + now elim (Hev c).
    + apply Hacc.
    + unfold disconnectedCallback, with_vdom. cbn [engine]. apply Hadd.
    + unfold property_set. destruct (declared n this); auto.
      unfold setter.
      destruct (reflected v).
      * intros Hin. apply Hset in Hin.
        destruct (_vdom this); [now apply Hacc in Hin|exact Hin].
      * destruct (_vdom this); [apply Hacc|auto].
Qed.


End EngineMore.

Lemma hydrate_only_on_connect_witness :
  (forall context, Disconnect <> @Connect nat context)
  /\ forall t r,
       In (Hydrate t r) (engine (step nat_toString greet_rendered Disconnect))
       -> In (Hydrate t r) (engine greet_rendered).
Proof.
  assert (H : forall context, Disconnect <> @Connect nat context)
    by (intros context; discriminate).
  split; [exact H|].
  exact (proj2 (hydrate_only_on_connect nat nat_toString greet_rendered)
               Disconnect H).
Defined.

